(** * Startup configuration validation of the Kindergarten backend

    A shallow embedding of [checkEnvironment] and [validateEnvValue]
    (the environment validation module of the backend), of the logger and
    of the data store ([readData], [writeData]), together with the
    JavaScript built-ins they call, and the properties of these functions.

    Strings are JavaScript strings: finite sequences of UTF-16 code units,
    here [list N].  [process.env] is a finite map from names to strings;
    a lookup of an unset name is [None] (JavaScript's [undefined]). *)

From Stdlib Require Import ZArith Ascii DecimalN.
From stdpp Require Import gmap list strings.

Local Open Scope Z_scope.

(** ** JavaScript strings *)

(** A string literal of the source whose characters are all ASCII. *)
Definition lit (s : string) : list N :=
  N_of_ascii <$> String.list_ascii_of_string s.
Arguments lit s%_string.

Module JS.

(** [WhiteSpace] and [LineTerminator] code points of ECMAScript: the set
    that [String.prototype.trim], [parseInt] and the regular expression
    class [\s] share.  All of them lie in the Basic Multilingual Plane. *)
Definition isWhiteSpace (c : N) : bool :=
  ((c =? 0x09) || (c =? 0x0A) || (c =? 0x0B) || (c =? 0x0C) || (c =? 0x0D)
   || (c =? 0x20) || (c =? 0xA0) || (c =? 0x1680)
   || ((0x2000 <=? c) && (c <=? 0x200A))
   || (c =? 0x2028) || (c =? 0x2029) || (c =? 0x202F) || (c =? 0x205F)
   || (c =? 0x3000) || (c =? 0xFEFF))%N.

Fixpoint trimStart (s : list N) : list N :=
  match s with
  | c :: s' => if isWhiteSpace c then trimStart s' else s
  | [] => []
  end.

Definition trimEnd (s : list N) : list N := rev (trimStart (rev s)).

(** [String.prototype.trim] *)
Definition trim (s : list N) : list N := trimEnd (trimStart s).

(** [ToBoolean] on a value that is a string or [undefined]. *)
Definition truthy (v : option (list N)) : bool :=
  match v with
  | Some (_ :: _) => true
  | _ => false
  end.

(** [ToString] on a value that is a string or [undefined]. *)
Definition ToString (v : option (list N)) : list N :=
  match v with
  | Some s => s
  | None => lit "undefined"
  end.

(** The string that a value is, where the source has tested the value to
    be a non-empty string before it reads [.length] or calls a method of
    it. *)
Definition string_of (v : option (list N)) : list N := default [] v.

(** [typeof] on a value that is a string or [undefined]. *)
Definition typeof (v : option (list N)) : list N :=
  match v with
  | Some _ => lit "string"
  | None => lit "undefined"
  end.

(** [String.prototype.startsWith] *)
Fixpoint startsWith (s p : list N) : bool :=
  match p, s with
  | [], _ => true
  | _ :: _, [] => false
  | a :: p', b :: s' => (a =? b)%N && startsWith s' p'
  end.

(** [String.prototype.includes] *)
Fixpoint includes (s p : list N) : bool :=
  startsWith s p ||
  match s with
  | [] => false
  | _ :: s' => includes s' p
  end.

(** [String.prototype.split] with a separator of one code unit: the
    pieces between the occurrences of [sep], at least one piece. *)
Fixpoint split_from (sep : N) (cur s : list N) : list (list N) :=
  match s with
  | [] => [cur]
  | c :: s' =>
      if (c =? sep)%N then cur :: split_from sep [] s'
      else split_from sep (cur ++ [c]) s'
  end.

Definition split (s : list N) (sep : N) : list (list N) := split_from sep [] s.

(** *** Numbers

    The numbers of this module are results of [parseInt] that are only
    tested with [isNaN] and compared with the integer constants 1, 1000
    and 65535.  [parseInt] rounds the mathematical integer it reads to a
    double; rounding is monotone and fixes these constants and their
    neighbours, so the comparisons agree with those of the unrounded
    integer, which is what [Int] carries. *)
Inductive number :=
| NaN
| Int (z : Z).

Definition isNaN (n : number) : bool :=
  match n with NaN => true | Int _ => false end.

(** [n < k] and [n > k]: false when [n] is [NaN]. *)
Definition lt (n : number) (k : Z) : bool :=
  match n with NaN => false | Int z => z <? k end.
Definition gt (n : number) (k : Z) : bool :=
  match n with NaN => false | Int z => k <? z end.

(** The value of a code unit as a digit of radix [R], if it is one. *)
Definition digit_value (R : Z) (c : N) : option Z :=
  let c := Z.of_N c in
  let v :=
    if (48 <=? c) && (c <=? 57) then Some (c - 48)
    else if (97 <=? c) && (c <=? 122) then Some (c - 87)
    else if (65 <=? c) && (c <=? 90) then Some (c - 55)
    else None in
  match v with
  | Some d => if d <? R then Some d else None
  | None => None
  end.

(** The values of the longest prefix of [s] made of radix-[R] digits. *)
Fixpoint radix_prefix (R : Z) (s : list N) : list Z :=
  match s with
  | [] => []
  | c :: s' =>
      match digit_value R c with
      | Some d => d :: radix_prefix R s'
      | None => []
      end
  end.

Definition mathInt (R : Z) (ds : list Z) : Z :=
  fold_left (fun acc d => acc * R + d) ds 0.

(** [parseInt(string)] with no radix argument. *)
Definition parseInt (v : option (list N)) : number :=
  let inputString := ToString v in
  let S0 := trimStart inputString in
  let sign := match S0 with 45%N :: _ => -1 | _ => 1 end in
  let S1 := match S0 with
            | 43%N :: r => r
            | 45%N :: r => r
            | _ => S0
            end in
  let '(R, S2) := match S1 with
                  | 48%N :: 120%N :: r => (16, r)
                  | 48%N :: 88%N :: r => (16, r)
                  | _ => (10, S1)
                  end in
  match radix_prefix R S2 with
  | [] => NaN
  | ds => Int (sign * mathInt R ds)
  end.

(** *** Regular expressions

    The two patterns of the source are anchored at both ends, use no
    flags, no groups and no back-references, so [RegExp.prototype.test]
    decides whether the whole string belongs to the language of the
    pattern.  Membership is computed with derivatives. *)
Inductive regex :=
| RVoid
| REps
| RClass (p : N -> bool)
| RSeq (r1 r2 : regex)
| RAlt (r1 r2 : regex)
| RStar (r : regex).

Definition ROpt (r : regex) : regex := RAlt r REps.
Definition RPlus (r : regex) : regex := RSeq r (RStar r).

Fixpoint nullable (r : regex) : bool :=
  match r with
  | RVoid => false
  | REps => true
  | RClass _ => false
  | RSeq r1 r2 => nullable r1 && nullable r2
  | RAlt r1 r2 => nullable r1 || nullable r2
  | RStar _ => true
  end.

Fixpoint deriv (c : N) (r : regex) : regex :=
  match r with
  | RVoid => RVoid
  | REps => RVoid
  | RClass p => if p c then REps else RVoid
  | RSeq r1 r2 =>
      if nullable r1 then RAlt (RSeq (deriv c r1) r2) (deriv c r2)
      else RSeq (deriv c r1) r2
  | RAlt r1 r2 => RAlt (deriv c r1) (deriv c r2)
  | RStar r1 => RSeq (deriv c r1) (RStar r1)
  end.

(** [/^r$/.test(s)] *)
Fixpoint test (r : regex) (s : list N) : bool :=
  match s with
  | [] => nullable r
  | c :: s' => test (deriv c r) s'
  end.

Definition chr (a : N) : regex := RClass (N.eqb a).
(** [\d] *)
Definition digit : regex := RClass (fun c => (48 <=? c) && (c <=? 57))%N.
(** [[^\s@]] *)
Definition not_space_at : regex :=
  RClass (fun c => negb (isWhiteSpace c || (c =? 64)%N)).

End JS.

(** ** Completions: a result or a thrown exception *)

Inductive exn := TypeError.

Inductive completion (A : Type) :=
| Normal (a : A)
| Throw (e : exn).
Arguments Normal {A} a.
Arguments Throw {A} e.

(** [try { body } catch { handler }] *)
Definition try_catch {A} (body : completion A) (handler : exn -> completion A)
  : completion A :=
  match body with
  | Normal a => Normal a
  | Throw e => handler e
  end.

(** ** The URL constructor

    [new URL(input)] with no base runs the basic URL parser of the URL
    Standard on [input] and throws a [TypeError] when the parser returns
    failure.  The parser is a state machine over the code points of the
    input; each state below is a function of the input that is left,
    [[]] standing for the EOF code point, and "decrease pointer by 1"
    followed by a change of state is a call of the next state on the same
    input.  Validation errors do not change the result and are left out.
    The host parser (IPv4, IPv6, domain to ASCII, opaque hosts) is a
    parameter. *)
Module URL.

Inductive host :=
| Domain (s : list N)
| IPv4 (a : N)
| IPv6 (pieces : list N)
| OpaqueHost (s : list N)
| EmptyHost.

(** The part of a URL record that is settled when the path starts.  The
    credentials, path, query and fragment are not built: the states that
    build them never return failure. *)
Record URLRecord := mkURL {
  scheme : list N;
  host_of : option host;
  port : option Z
}.

Definition set_host (u : URLRecord) (h : option host) : URLRecord :=
  mkURL (scheme u) h (port u).
Definition set_port (u : URLRecord) (p : option Z) : URLRecord :=
  mkURL (scheme u) (host_of u) p.

Definition isASCIIDigit (c : N) : bool := ((48 <=? c) && (c <=? 57))%N.
Definition isASCIIUpperAlpha (c : N) : bool := ((65 <=? c) && (c <=? 90))%N.
Definition isASCIILowerAlpha (c : N) : bool := ((97 <=? c) && (c <=? 122))%N.
Definition isASCIIAlpha (c : N) : bool :=
  isASCIIUpperAlpha c || isASCIILowerAlpha c.
Definition isASCIIAlphanumeric (c : N) : bool :=
  isASCIIDigit c || isASCIIAlpha c.
Definition lowercase (c : N) : N :=
  if isASCIIUpperAlpha c then (c + 32)%N else c.

(** A C0 control or space: U+0000 to U+0020. *)
Definition isC0ControlOrSpace (c : N) : bool := (c <=? 0x20)%N.
(** An ASCII tab or newline. *)
Definition isTabOrNewline (c : N) : bool :=
  ((c =? 0x09) || (c =? 0x0A) || (c =? 0x0D))%N.

Definition special_schemes : list (list N * option Z) :=
  [ (lit "ftp", Some 21); (lit "file", None); (lit "http", Some 80);
    (lit "https", Some 443); (lit "ws", Some 80); (lit "wss", Some 443) ].

Definition is_special_scheme (s : list N) : bool :=
  bool_decide (s ∈ special_schemes.*1).

Definition is_special (u : URLRecord) : bool := is_special_scheme (scheme u).

Definition default_port (s : list N) : option Z :=
  match list_find (fun p => p.1 = s) special_schemes with
  | Some (_, (_, p)) => p
  | None => None
  end.

Definition is_windows_drive_letter (b : list N) : bool :=
  match b with
  | [a; c] => isASCIIAlpha a && ((c =? 58) || (c =? 124))%N
  | _ => false
  end.

(** The code points that end the authority, host and port of [u]:
    [/], [?], [#], and [\] when [u] is special. *)
Definition ends_authority (u : URLRecord) (c : N) : bool :=
  ((c =? 47) || (c =? 63) || (c =? 35))%N || (is_special u && (c =? 92)%N).

Definition decimal (ds : list N) : Z :=
  fold_left (fun acc d => acc * 10 + (Z.of_N d - 48)) ds 0.

(** Conversion of a JavaScript string to a USVString, as a list of code
    points: surrogate pairs are combined, lone surrogates become U+FFFD. *)
Definition isLeadSurrogate (c : N) : bool := ((0xD800 <=? c) && (c <=? 0xDBFF))%N.
Definition isTrailSurrogate (c : N) : bool := ((0xDC00 <=? c) && (c <=? 0xDFFF))%N.

Fixpoint toUSVString (s : list N) : list N :=
  match s with
  | [] => []
  | c :: s' =>
      if isLeadSurrogate c then
        match s' with
        | d :: s'' =>
            if isTrailSurrogate d
            then (0x10000 + (c - 0xD800) * 0x400 + (d - 0xDC00))%N :: toUSVString s''
            else 0xFFFD%N :: toUSVString s'
        | [] => [0xFFFD%N]
        end
      else if isTrailSurrogate c then 0xFFFD%N :: toUSVString s'
      else c :: toUSVString s'
  end.

Section Parser.

(** [host_parser input isOpaque] *)
Variable host_parser : list N -> bool -> option host.

(** Path start, path and opaque path state, and the query and fragment
    states they lead to: none of them returns failure. *)
Definition path_start_state (u : URLRecord) (input : list N) : option URLRecord :=
  Some u.
Definition path_state (u : URLRecord) (input : list N) : option URLRecord :=
  Some u.
Definition opaque_path_state (u : URLRecord) (input : list N) : option URLRecord :=
  Some u.

(** What the port state does at the end of the port. *)
Definition port_end (u : URLRecord) (buffer input : list N) : option URLRecord :=
  match buffer with
  | [] => path_start_state u input
  | _ =>
      let p := decimal buffer in
      if 65535 <? p then None
      else
        let u' := set_port u (if decide (default_port (scheme u) = Some p)
                              then None else Some p) in
        path_start_state u' input
  end.

Fixpoint port_state (u : URLRecord) (buffer input : list N) : option URLRecord :=
  match input with
  | [] => port_end u buffer []
  | c :: rest =>
      if isASCIIDigit c then port_state u (buffer ++ [c]) rest
      else if ends_authority u c then port_end u buffer input
      else None
  end.

(** What the host state does at the end of the host. *)
Definition host_end (u : URLRecord) (buffer input : list N) : option URLRecord :=
  if is_special u && bool_decide (buffer = []) then None
  else
    match host_parser buffer (negb (is_special u)) with
    | None => None
    | Some h => path_start_state (set_host u (Some h)) input
    end.

Fixpoint host_state (u : URLRecord) (insideBrackets : bool)
    (buffer input : list N) : option URLRecord :=
  match input with
  | [] => host_end u buffer []
  | c :: rest =>
      if (c =? 58)%N && negb insideBrackets then
        if bool_decide (buffer = []) then None
        else
          match host_parser buffer (negb (is_special u)) with
          | None => None
          | Some h => port_state (set_host u (Some h)) [] rest
          end
      else if ends_authority u c then host_end u buffer input
      else
        let insideBrackets :=
          if (c =? 93)%N then false
          else if (c =? 91)%N then true
          else insideBrackets in
        host_state u insideBrackets (buffer ++ [c]) rest
  end.

(** The end of the authority: the pointer goes back to the start of
    [buffer], which the host state reads again. *)
Definition authority_end (u : URLRecord) (atSignSeen : bool)
    (buffer input : list N) : option URLRecord :=
  if atSignSeen && bool_decide (buffer = []) then None
  else host_state u false [] (buffer ++ input).

Fixpoint authority_state (u : URLRecord) (atSignSeen : bool)
    (buffer input : list N) : option URLRecord :=
  match input with
  | [] => authority_end u atSignSeen buffer []
  | c :: rest =>
      if (c =? 64)%N then authority_state u true [] rest
      else if ends_authority u c then authority_end u atSignSeen buffer input
      else authority_state u atSignSeen (buffer ++ [c]) rest
  end.

Definition path_or_authority_state (u : URLRecord) (input : list N)
  : option URLRecord :=
  match input with
  | 47%N :: rest => authority_state u false [] rest
  | _ => path_state u input
  end.

Fixpoint special_authority_ignore_slashes_state (u : URLRecord)
    (input : list N) : option URLRecord :=
  match input with
  | [] => authority_state u false [] []
  | c :: rest =>
      if ((c =? 47) || (c =? 92))%N
      then special_authority_ignore_slashes_state u rest
      else authority_state u false [] input
  end.

Definition special_authority_slashes_state (u : URLRecord) (input : list N)
  : option URLRecord :=
  match input with
  | 47%N :: 47%N :: rest => special_authority_ignore_slashes_state u rest
  | _ => special_authority_ignore_slashes_state u input
  end.

(** What the file host state does at the end of the host. *)
Definition file_host_end (u : URLRecord) (buffer input : list N)
  : option URLRecord :=
  if is_windows_drive_letter buffer then path_state u input
  else if bool_decide (buffer = []) then
    path_start_state (set_host u (Some EmptyHost)) input
  else
    match host_parser buffer (negb (is_special u)) with
    | None => None
    | Some h =>
        let h' := match h with
                  | Domain d =>
                      if bool_decide (d = lit "localhost") then EmptyHost else h
                  | _ => h
                  end in
        path_start_state (set_host u (Some h')) input
    end.

Fixpoint file_host_state (u : URLRecord) (buffer input : list N)
  : option URLRecord :=
  match input with
  | [] => file_host_end u buffer []
  | c :: rest =>
      if ((c =? 47) || (c =? 92) || (c =? 63) || (c =? 35))%N
      then file_host_end u buffer input
      else file_host_state u (buffer ++ [c]) rest
  end.

Definition file_slash_state (u : URLRecord) (input : list N) : option URLRecord :=
  match input with
  | c :: rest =>
      if ((c =? 47) || (c =? 92))%N then file_host_state u [] rest
      else path_state u input
  | [] => path_state u []
  end.

Definition file_state (u : URLRecord) (input : list N) : option URLRecord :=
  let u := mkURL (lit "file") (Some EmptyHost) (port u) in
  match input with
  | c :: rest =>
      if ((c =? 47) || (c =? 92))%N then file_slash_state u rest
      else path_state u input
  | [] => path_state u []
  end.

(** The scheme state.  With no base URL the no scheme state, to which it
    goes on a code point that cannot be part of a scheme, returns
    failure. *)
Fixpoint scheme_state (buffer input : list N) : option URLRecord :=
  match input with
  | [] => None
  | c :: rest =>
      if isASCIIAlphanumeric c || ((c =? 43) || (c =? 45) || (c =? 46))%N
      then scheme_state (buffer ++ [lowercase c]) rest
      else if (c =? 58)%N then
        let u := mkURL buffer None None in
        if bool_decide (buffer = lit "file") then file_state u rest
        else if is_special u then special_authority_slashes_state u rest
        else
          match rest with
          | 47%N :: rest' => path_or_authority_state u rest'
          | _ => opaque_path_state u rest
          end
      else None
  end.

Definition scheme_start_state (input : list N) : option URLRecord :=
  match input with
  | c :: rest =>
      if isASCIIAlpha c then scheme_state [lowercase c] rest else None
  | [] => None
  end.

Fixpoint drop_C0_or_space (s : list N) : list N :=
  match s with
  | c :: s' => if isC0ControlOrSpace c then drop_C0_or_space s' else s
  | [] => []
  end.

Definition strip_C0_or_space (s : list N) : list N :=
  rev (drop_C0_or_space (rev (drop_C0_or_space s))).

Definition basic_URL_parser (input : list N) : option URLRecord :=
  let input := strip_C0_or_space input in
  let input := filter (fun c => isTabOrNewline c = false) input in
  scheme_start_state input.

(** [new URL(url)] *)
Definition new (url : list N) : completion URLRecord :=
  match basic_URL_parser (toUSVString url) with
  | Some u => Normal u
  | None => Throw TypeError
  end.

End Parser.

End URL.

(** ** The console and the process

    [checkEnvironment] writes lines to the console and may end the process
    with [process.exit].  A run is the list of its events in order and,
    when the function returns, its result; [process.exit] does not return,
    so nothing of the function runs after it. *)

Inductive event :=
| ConsoleError (line : list N)
| ConsoleWarn (line : list N)
| ConsoleLog (line : list N)
| ProcessExit (code : Z).

Definition IO (A : Type) : Type := list event * option A.

Global Instance IO_ret : MRet IO := fun A a => ([], Some a).

Global Instance IO_bind : MBind IO := fun A B k m =>
  match m with
  | (t, Some a) => let '(t', r) := k a in (t ++ t', r)
  | (t, None) => (t, None)
  end.

Definition console_error (line : list N) : IO unit := ([ConsoleError line], Some tt).
Definition console_warn (line : list N) : IO unit := ([ConsoleWarn line], Some tt).
Definition console_log (line : list N) : IO unit := ([ConsoleLog line], Some tt).
Definition process_exit (code : Z) : IO unit := ([ProcessExit code], None).

(** [if (c) { body }] with no else branch *)
Definition when (c : bool) (body : IO unit) : IO unit :=
  if c then body else mret tt.

(** [list.forEach(x => body)] for a body with effects *)
Fixpoint forEachIO {A} (l : list A) (body : A -> IO unit) : IO unit :=
  match l with
  | [] => mret tt
  | x :: l' => body x ;; forEachIO l' body
  end.

Definition trace {A} (r : IO A) : list event := r.1.

Inductive ValidationOutcome := Halt | Proceed.

(** A run that ends in [process.exit] halts the startup; a run that
    returns lets it proceed. *)
Definition outcome {A} (r : IO A) : ValidationOutcome :=
  match r.2 with
  | None => Halt
  | Some _ => Proceed
  end.

(** ** checkEnvironment *)

Definition requiredEnvVars : list (list N) :=
  [ lit "PORT"; lit "JWT_SECRET"; lit "TELEGRAM_BOT_TOKEN"; lit "TELEGRAM_CHAT_ID" ].

Definition optionalEnvVars : list (list N) :=
  [ lit "NODE_ENV"; lit "MONGODB_URI"; lit "SMTP_HOST"; lit "SMTP_PORT";
    lit "SMTP_USER"; lit "SMTP_PASS"; lit "RATE_LIMIT_WINDOW_MS";
    lit "RATE_LIMIT_MAX_REQUESTS"; lit "ALLOWED_ORIGINS"; lit "ENCRYPTION_KEY" ].

(** The three arrays [missing], [warnings] and [critical]. *)
Record Findings := mkFindings {
  missing : list (list N);
  warnings : list (list N);
  critical : list (list N)
}.

Definition push_missing (x : list N) (f : Findings) : Findings :=
  mkFindings (missing f ++ [x]) (warnings f) (critical f).
Definition push_warning (x : list N) (f : Findings) : Findings :=
  mkFindings (missing f) (warnings f ++ [x]) (critical f).
Definition push_critical (x : list N) (f : Findings) : Findings :=
  mkFindings (missing f) (warnings f) (critical f ++ [x]).

(** [list.forEach(x => body)] for a body that updates the arrays *)
Definition forEach {A} (l : list A) (body : A -> Findings -> Findings)
    (f : Findings) : Findings :=
  fold_left (fun f x => body x f) l f.

(** [if (c) { body }] for a body that updates the arrays *)
Definition cond (c : bool) (body : Findings -> Findings) (f : Findings)
  : Findings :=
  if c then body f else f.

(** [process.env.NAME?.includes(p)] as a condition *)
Definition opt_includes (v : option (list N)) (p : list N) : bool :=
  match v with
  | Some s => JS.includes s p
  | None => false
  end.

(** [/^-?\d+$/] *)
Definition chat_id_pattern : JS.regex :=
  JS.RSeq (JS.ROpt (JS.chr 45)) (JS.RPlus JS.digit).

(** [/^[^\s@]+@[^\s@]+\.[^\s@]+$/] *)
Definition email_pattern : JS.regex :=
  JS.RSeq (JS.RPlus JS.not_space_at)
    (JS.RSeq (JS.chr 64)
       (JS.RSeq (JS.RPlus JS.not_space_at)
          (JS.RSeq (JS.chr 46) (JS.RPlus JS.not_space_at)))).

Definition msg_jwt_short : list N :=
  lit "JWT_SECRET must be at least 32 characters long for security".
Definition msg_jwt_default : list N :=
  lit "JWT_SECRET is using default value - CHANGE IT IMMEDIATELY!".
Definition msg_jwt_example : list N :=
  lit "JWT_SECRET appears to be using example value".
Definition msg_bot_token : list N :=
  lit "TELEGRAM_BOT_TOKEN appears to be using example value".
Definition msg_port : list N :=
  lit "PORT should be a valid port number (1-65535)".
Definition msg_window : list N :=
  lit "RATE_LIMIT_WINDOW_MS should be at least 1000ms".
Definition msg_max_requests : list N :=
  lit "RATE_LIMIT_MAX_REQUESTS should be a positive number".
Definition msg_chat_id : list N :=
  lit "TELEGRAM_CHAT_ID should be a numeric value".
Definition msg_origin (trimmed : list N) : list N :=
  lit "Invalid origin format: " ++ trimmed
  ++ lit ". Should start with http:// or https://".

Section CheckEnvironment.

(** [process.env] *)
Variable env : gmap (list N) (list N).

(** The first part of [checkEnvironment], the checks, fills the three
    arrays and writes nothing.  Each block of the source is a function
    from the arrays before it to the arrays after it. *)

(* Check required variables *)
Definition check_required (f : Findings) : Findings :=
  forEach requiredEnvVars (fun varName =>
    cond (negb (JS.truthy (env !! varName))) (push_missing varName)) f.

(* Check JWT secret strength *)
Definition check_jwt_strength (f : Findings) : Findings :=
  cond (JS.truthy (env !! lit "JWT_SECRET")) (fun f =>
    let f := cond (Z.of_nat (length (JS.string_of (env !! lit "JWT_SECRET"))) <? 32)
               (push_critical msg_jwt_short) f in
    cond (bool_decide (env !! lit "JWT_SECRET" = Some (lit "play-kids-secret-key")))
      (push_critical msg_jwt_default) f) f.

(* Check if using default/example values *)
Definition check_jwt_example (f : Findings) : Findings :=
  cond (opt_includes (env !! lit "JWT_SECRET") (lit "your_super_secret"))
    (push_critical msg_jwt_example) f.

Definition check_bot_token (f : Findings) : Findings :=
  cond (opt_includes (env !! lit "TELEGRAM_BOT_TOKEN") (lit "your_bot_token"))
    (push_warning msg_bot_token) f.

(* Validate PORT *)
Definition check_port (f : Findings) : Findings :=
  let port := JS.parseInt (env !! lit "PORT") in
  cond (JS.isNaN port || JS.lt port 1 || JS.gt port 65535)
    (push_warning msg_port) f.

(* Validate rate limit values *)
Definition check_rate_limit_window (f : Findings) : Findings :=
  cond (JS.truthy (env !! lit "RATE_LIMIT_WINDOW_MS")) (fun f =>
    let windowMs := JS.parseInt (env !! lit "RATE_LIMIT_WINDOW_MS") in
    cond (JS.isNaN windowMs || JS.lt windowMs 1000)
      (push_warning msg_window) f) f.

Definition check_rate_limit_max (f : Findings) : Findings :=
  cond (JS.truthy (env !! lit "RATE_LIMIT_MAX_REQUESTS")) (fun f =>
    let maxReq := JS.parseInt (env !! lit "RATE_LIMIT_MAX_REQUESTS") in
    cond (JS.isNaN maxReq || JS.lt maxReq 1)
      (push_warning msg_max_requests) f) f.

(* Validate Telegram chat ID format *)
Definition check_chat_id (f : Findings) : Findings :=
  cond (JS.truthy (env !! lit "TELEGRAM_CHAT_ID")
        && negb (JS.test chat_id_pattern (JS.ToString (env !! lit "TELEGRAM_CHAT_ID"))))
    (push_warning msg_chat_id) f.

(* Check ALLOWED_ORIGINS format *)
Definition check_origins (f : Findings) : Findings :=
  cond (JS.truthy (env !! lit "ALLOWED_ORIGINS")) (fun f =>
    let origins := JS.split (JS.string_of (env !! lit "ALLOWED_ORIGINS")) 44 in
    forEach origins (fun origin =>
      let trimmed := JS.trim origin in
      cond (JS.truthy (Some trimmed)
            && negb (JS.startsWith trimmed (lit "http://"))
            && negb (JS.startsWith trimmed (lit "https://")))
        (push_warning (msg_origin trimmed))) f) f.

Definition findings : Findings :=
  let f := mkFindings [] [] [] in
  let f := check_required f in
  let f := check_jwt_strength f in
  let f := check_jwt_example f in
  let f := check_bot_token f in
  let f := check_port f in
  let f := check_rate_limit_window f in
  let f := check_rate_limit_max f in
  let f := check_chat_id f in
  let f := check_origins f in
  f.

Definition is_production : bool :=
  bool_decide (env !! lit "NODE_ENV" = Some (lit "production")).
Definition is_development : bool :=
  bool_decide (env !! lit "NODE_ENV" = Some (lit "development")).

Definition item (x : list N) : list N := lit "   - " ++ x.

Definition line_critical : list N :=
  [0xD83D; 0xDEA8]%N ++ lit " CRITICAL SECURITY ISSUES:".
Definition line_cannot_start : list N :=
  [0x0A; 0x274C]%N ++ lit " Cannot start in production with critical security issues!".
Definition line_missing : list N :=
  [0x274C]%N ++ lit " Missing required environment variables:".
Definition line_check_env_file : list N :=
  [0x0A]%N ++ lit "Please check your .env file and backend/.env.example".
Definition line_warnings : list N :=
  [0x26A0; 0xFE0F]%N ++ lit "  Environment warnings:".
Definition line_validated : list N :=
  [0x2705]%N ++ lit " Environment variables validated".
Definition line_optional : list N :=
  [0x2139; 0xFE0F]%N ++ lit "  Optional environment variables not set:".

(** The second part of [checkEnvironment]: the report of the arrays. *)
Definition report (f : Findings) : IO unit :=
  (* Report critical issues *)
  when (0 <? Z.of_nat (length (critical f))) (
    console_error line_critical ;;
    forEachIO (critical f) (fun c => console_error (item c)) ;;
    when is_production (
      console_error line_cannot_start ;;
      process_exit 1)) ;;
  (* Report results *)
  when (0 <? Z.of_nat (length (missing f))) (
    console_error line_missing ;;
    forEachIO (missing f) (fun v => console_error (item v)) ;;
    console_error line_check_env_file ;;
    process_exit 1) ;;
  when (0 <? Z.of_nat (length (warnings f))) (
    console_warn line_warnings ;;
    forEachIO (warnings f) (fun w => console_warn (item w))) ;;
  console_log line_validated ;;
  (* Log optional missing vars in development *)
  when is_development (
    let missingOptional :=
      filter (fun v => JS.truthy (env !! v) = false) optionalEnvVars in
    when (0 <? Z.of_nat (length missingOptional)) (
      console_log line_optional ;;
      forEachIO missingOptional (fun v => console_log (item v)))).

Definition checkEnvironment : IO unit := report findings.

End CheckEnvironment.

(** ** validateEnvValue *)

Section ValidateEnvValue.

Variable host_parser : list N -> bool -> option URL.host.

(** [validateEnvValue(name, value, type = 'string')] for a [value] that is
    a string or [undefined]; [type] is [None] when the argument is left
    out. *)
Definition validateEnvValue (name value type : option (list N))
  : completion bool :=
  let type := default (lit "string") type in
  if negb (JS.truthy value) then Normal false
  else if bool_decide (type = lit "number") then
    Normal (negb (JS.isNaN (JS.parseInt value)))
  else if bool_decide (type = lit "boolean") then
    Normal (bool_decide (value = Some (lit "true"))
            || bool_decide (value = Some (lit "false")))
  else if bool_decide (type = lit "url") then
    try_catch
      (match URL.new host_parser (JS.ToString value) with
       | Normal _ => Normal true
       | Throw e => Throw e
       end)
      (fun _ => Normal false)
  else if bool_decide (type = lit "email") then
    Normal (JS.test email_pattern (JS.ToString value))
  else
    Normal (bool_decide (JS.typeof value = lit "string")
            && (0 <? Z.of_nat (length (JS.string_of value)))).

End ValidateEnvValue.

(** ** Console calls with several arguments

    The logger and the data store pass several arguments to the console:
    strings and other values.  A call of a console method is recorded with
    its arguments in order. *)
Module Console.

(** A JavaScript value as an argument: a string, [undefined], or another
    value, of a type [A] that the functions below never inspect. *)
Inductive value (A : Type) :=
| VString (s : list N)
| VUndefined
| VOther (a : A).
Arguments VString {A} s.
Arguments VUndefined {A}.
Arguments VOther {A} a.

Inductive method := m_log | m_error | m_warn | m_debug.

Record call (A : Type) := Call {
  method_of : method;
  args : list (value A)
}.
Arguments Call {A} _ _.
Arguments method_of {A} _.
Arguments args {A} _.

End Console.

(** ** The logger *)
Module Logger.

Import Console.

Section Logger.

Context {A : Type}.

(** [process.env] when the module is loaded *)
Variable env : gmap (list N) (list N).

Definition isDev : bool :=
  bool_decide (env !! lit "NODE_ENV" = Some (lit "development")).

(** [args[0]] *)
Definition first_arg (args : list (value A)) : value A :=
  match args with
  | a :: _ => a
  | [] => VUndefined
  end.

Definition info (args : list (value A)) : list (call A) :=
  if isDev then [Call m_log (VString (lit "[INFO]") :: args)] else [].

Definition error (args : list (value A)) : list (call A) :=
  (* Always log errors, but format differently *)
  if isDev then [Call m_error (VString (lit "[ERROR]") :: args)]
  else [Call m_error [VString (lit "[ERROR]"); first_arg args]].

Definition warn (args : list (value A)) : list (call A) :=
  if isDev then [Call m_warn (VString (lit "[WARN]") :: args)] else [].

Definition debug (args : list (value A)) : list (call A) :=
  if isDev then [Call m_debug (VString (lit "[DEBUG]") :: args)] else [].

Definition success (args : list (value A)) : list (call A) :=
  if isDev then [Call m_log (VString (lit "[SUCCESS]") :: args)] else [].

End Logger.

End Logger.

(** ** The data store

    [readData] and [writeData] keep one JSON file per key in a fixed
    directory.  The file system, [path.join] and [JSON] belong to the
    platform and are parameters: a file system state [FS] that
    [fs.readFileSync] reads and [fs.writeFileSync] changes, each of which
    may throw an error with a message. *)
Module DB.

Import Console.

Record Error := mkError { message : list N }.

Section DB.

Context {Value FS : Type}.

(** [null] *)
Variable null : Value.
(** [path.join(__dirname, '../../data')] *)
Variable dataDir : list N.
Variable path_join : list N -> list N -> list N.
(** [fs.readFileSync(path, 'utf8')] *)
Variable readFileSync : FS -> list N -> Error + list N.
(** [fs.writeFileSync(path, data)], for a string or [undefined] *)
Variable writeFileSync : FS -> list N -> option (list N) -> FS * option Error.
Variable JSON_parse : list N -> Error + Value.
(** [JSON.stringify(data, null, 2)]: a string, or [undefined] for a value
    that has no JSON text *)
Variable JSON_stringify : Value -> Error + option (list N).

Definition readData (fs : FS) (filename : list N) : list (call Value) * Value :=
  let filePath := path_join dataDir filename in
  let body :=
    match readFileSync fs filePath with
    | inr data => JSON_parse data
    | inl error => inl error
    end in
  match body with
  | inr v => ([], v)
  | inl error =>
      ([Call m_error
          [VString (lit "Error reading " ++ filename ++ lit ":");
           VString (message error)]],
       null)
  end.

Definition writeData (fs : FS) (filename : list N) (data : Value)
  : FS * list (call Value) * bool :=
  let filePath := path_join dataDir filename in
  let failed fs error :=
    (fs,
     [Call m_error
        [VString (lit "Error writing " ++ filename ++ lit ":");
         VString (message error)]],
     false) in
  match JSON_stringify data with
  | inl error => failed fs error
  | inr text =>
      match writeFileSync fs filePath text with
      | (fs', None) => (fs', [], true)
      | (fs', Some error) => failed fs' error
      end
  end.

End DB.

End DB.

(** * Vocabulary of the properties *)

(** A setting is absent when it is not set or set to the empty string. *)
Definition absent (env : gmap (list N) (list N)) (name : list N) : Prop :=
  env !! name = None \/ env !! name = Some [].

Global Instance absent_dec env name : Decision (absent env name).
Proof. unfold absent. apply _. Defined.

(** [p] occurs in [s] *)
Definition substring (p s : list N) : Prop := exists a b, s = a ++ p ++ b.

Definition nonempty {A} (l : list A) : bool := 0 <? Z.of_nat (length l).

Section Vocabulary.

Variable env : gmap (list N) (list N).

(** The Critical findings: all of them concern [JWT_SECRET]. *)
Definition jwt_critical : list (list N) :=
  (if JS.truthy (env !! lit "JWT_SECRET") then
     (if Z.of_nat (length (JS.string_of (env !! lit "JWT_SECRET"))) <? 32
      then [msg_jwt_short] else [])
     ++ (if bool_decide (env !! lit "JWT_SECRET" = Some (lit "play-kids-secret-key"))
         then [msg_jwt_default] else [])
   else [])
  ++ (if opt_includes (env !! lit "JWT_SECRET") (lit "your_super_secret")
      then [msg_jwt_example] else []).

Definition port_invalid : bool :=
  let port := JS.parseInt (env !! lit "PORT") in
  JS.isNaN port || JS.lt port 1 || JS.gt port 65535.

Definition origin_invalid (origin : list N) : bool :=
  let trimmed := JS.trim origin in
  JS.truthy (Some trimmed)
  && negb (JS.startsWith trimmed (lit "http://"))
  && negb (JS.startsWith trimmed (lit "https://")).

(** The warnings of the blocks before and after the port check. *)
Definition warnings_before_port : list (list N) :=
  if opt_includes (env !! lit "TELEGRAM_BOT_TOKEN") (lit "your_bot_token")
  then [msg_bot_token] else [].

Definition warnings_after_port : list (list N) :=
  (if JS.truthy (env !! lit "RATE_LIMIT_WINDOW_MS")
      && (let windowMs := JS.parseInt (env !! lit "RATE_LIMIT_WINDOW_MS") in
          JS.isNaN windowMs || JS.lt windowMs 1000)
   then [msg_window] else [])
  ++ (if JS.truthy (env !! lit "RATE_LIMIT_MAX_REQUESTS")
         && (let maxReq := JS.parseInt (env !! lit "RATE_LIMIT_MAX_REQUESTS") in
             JS.isNaN maxReq || JS.lt maxReq 1)
      then [msg_max_requests] else [])
  ++ (if JS.truthy (env !! lit "TELEGRAM_CHAT_ID")
         && negb (JS.test chat_id_pattern (JS.ToString (env !! lit "TELEGRAM_CHAT_ID")))
      then [msg_chat_id] else [])
  ++ (if JS.truthy (env !! lit "ALLOWED_ORIGINS")
      then (fun origin => msg_origin (JS.trim origin))
           <$> filter (fun origin => origin_invalid origin = true)
                 (JS.split (JS.string_of (env !! lit "ALLOWED_ORIGINS")) 44)
      else []).

End Vocabulary.

(** The lines of each part of the report. *)
Definition critical_lines (f : Findings) : list event :=
  if nonempty (critical f)
  then ConsoleError line_critical :: ((fun c => ConsoleError (item c)) <$> critical f)
  else [].

Definition missing_lines (f : Findings) : list event :=
  ConsoleError line_missing :: ((fun v => ConsoleError (item v)) <$> missing f)
  ++ [ConsoleError line_check_env_file].

Definition warning_lines (f : Findings) : list event :=
  if nonempty (warnings f)
  then ConsoleWarn line_warnings :: ((fun w => ConsoleWarn (item w)) <$> warnings f)
  else [].

Definition optional_lines (env : gmap (list N) (list N)) : list event :=
  let missingOptional :=
    filter (fun v => JS.truthy (env !! v) = false) optionalEnvVars in
  if is_development env && nonempty missingOptional
  then ConsoleLog line_optional :: ((fun v => ConsoleLog (item v)) <$> missingOptional)
  else [].

Definition no_exit (t : list event) : Prop := forall code, ProcessExit code ∉ t.

(** The kinds that [validateEnvValue] names. *)
Definition kinds : list (list N) :=
  [ lit "number"; lit "boolean"; lit "url"; lit "email"; lit "string" ].

(** A host parser that rejects every host, for runs that parse no host. *)
Definition no_host : list N -> bool -> option URL.host := fun _ _ => None.

(** [input] starts with a URL scheme: an ASCII letter, then letters,
    digits, [+], [-] or [.], then a colon. *)
Definition scheme_char (c : N) : bool :=
  URL.isASCIIAlphanumeric c || ((c =? 43) || (c =? 45) || (c =? 46))%N.

Definition has_scheme (input : list N) : Prop :=
  exists a body rest,
    input = a :: body ++ 58%N :: rest
    /\ URL.isASCIIAlpha a = true
    /\ Forall (fun c => scheme_char c = true) body.

(** What [new URL] parses, after the two clean-up steps of the parser. *)
Definition url_input (value : list N) : list N :=
  filter (fun c => URL.isTabOrNewline c = false)
    (URL.strip_C0_or_space (URL.toUSVString value)).

(** [value] is accepted by [validateEnvValue] as a URL, whatever the host
    parser, and the URL it parses to has no host. *)
Definition accepted_without_authority (value : list N) : Prop :=
  forall host_parser,
    validateEnvValue host_parser None (Some value) (Some (lit "url")) = Normal true
    /\ exists u, URL.new host_parser value = Normal u /\ URL.host_of u = None.

(** ** Sample environments *)

Definition env_of (l : list (string * string)) : gmap (list N) (list N) :=
  list_to_map ((fun p => (lit p.1, lit p.2)) <$> l).

Definition forty_x : string := "xxxxxxxxxxxxxxxxxxxxxxxxxxxxxxxxxxxxxxxx".

(** Every required setting present and valid, in production. *)
Definition env_valid : gmap (list N) (list N) :=
  env_of [ ("PORT", "3000"); ("JWT_SECRET", forty_x);
           ("TELEGRAM_BOT_TOKEN", "abc"); ("TELEGRAM_CHAT_ID", "12345");
           ("NODE_ENV", "production") ].

(** Only a short secret is set, in production. *)
Definition env_short_secret : gmap (list N) (list N) :=
  env_of [ ("JWT_SECRET", "short"); ("NODE_ENV", "production") ].

(** Every required setting present, the secret too short, in production. *)
Definition env_weak_secret : gmap (list N) (list N) :=
  env_of [ ("PORT", "3000"); ("JWT_SECRET", "short");
           ("TELEGRAM_BOT_TOKEN", "abc"); ("TELEGRAM_CHAT_ID", "12345");
           ("NODE_ENV", "production") ].

(** The same, in development. *)
Definition env_weak_secret_dev : gmap (list N) (list N) :=
  env_of [ ("PORT", "3000"); ("JWT_SECRET", "short");
           ("TELEGRAM_BOT_TOKEN", "abc"); ("TELEGRAM_CHAT_ID", "12345");
           ("NODE_ENV", "development") ].

(** Every required setting present and valid but a port out of range. *)
Definition env_port_99999 : gmap (list N) (list N) :=
  env_of [ ("PORT", "99999"); ("JWT_SECRET", forty_x);
           ("TELEGRAM_BOT_TOKEN", "abc"); ("TELEGRAM_CHAT_ID", "12345");
           ("NODE_ENV", "production") ].

(** Every required setting valid, and optional settings with bad values. *)
Definition env_bad_optional : gmap (list N) (list N) :=
  env_of [ ("PORT", "3000"); ("JWT_SECRET", forty_x);
           ("TELEGRAM_BOT_TOKEN", "abc"); ("TELEGRAM_CHAT_ID", "12345");
           ("NODE_ENV", "production");
           ("ALLOWED_ORIGINS", "example.com"); ("RATE_LIMIT_WINDOW_MS", "10");
           ("RATE_LIMIT_MAX_REQUESTS", "none") ].

(** A placeholder token and a chat id that is a name. *)
Definition env_placeholders : gmap (list N) (list N) :=
  env_of [ ("PORT", "3000"); ("JWT_SECRET", forty_x);
           ("TELEGRAM_BOT_TOKEN", "your_bot_token_here");
           ("TELEGRAM_CHAT_ID", "@channel") ].

(** The default secret. *)
Definition env_default_secret : gmap (list N) (list N) :=
  env_of [ ("JWT_SECRET", "play-kids-secret-key") ].

(** Three origins, the second one without a scheme. *)
Definition env_origins : gmap (list N) (list N) :=
  env_of [ ("ALLOWED_ORIGINS", "https://a.example, b.example ,http://c.example") ].

(** Development mode with two optional settings set. *)
Definition env_development : gmap (list N) (list N) :=
  env_of [ ("PORT", "3000"); ("JWT_SECRET", forty_x);
           ("TELEGRAM_BOT_TOKEN", "abc"); ("TELEGRAM_CHAT_ID", "12345");
           ("NODE_ENV", "development"); ("SMTP_HOST", "mail.example") ].

(** ** Regular expressions, numerals and shapes *)

(** The language of a pattern. *)
Inductive matches : JS.regex -> list N -> Prop :=
| matches_eps : matches JS.REps []
| matches_class p c : p c = true -> matches (JS.RClass p) [c]
| matches_seq r1 r2 s1 s2 :
    matches r1 s1 -> matches r2 s2 -> matches (JS.RSeq r1 r2) (s1 ++ s2)
| matches_alt_l r1 r2 s : matches r1 s -> matches (JS.RAlt r1 r2) s
| matches_alt_r r1 r2 s : matches r2 s -> matches (JS.RAlt r1 r2) s
| matches_star_nil r : matches (JS.RStar r) []
| matches_star_cons r s1 s2 :
    matches r s1 -> matches (JS.RStar r) s2 -> matches (JS.RStar r) (s1 ++ s2).

Definition is_digit (c : N) : bool := ((48 <=? c) && (c <=? 57))%N.

Definition is_hex_digit (c : N) : bool :=
  is_digit c || ((97 <=? c) && (c <=? 102))%N || ((65 <=? c) && (c <=? 70))%N.

(** An optional minus sign and one or more decimal digits. *)
Definition chat_id_shape (s : list N) : Prop :=
  exists ds, ds <> [] /\ Forall (fun c => is_digit c = true) ds
             /\ (s = ds \/ s = 45%N :: ds).

(** A code unit that is neither white space nor [@]. *)
Definition email_char (c : N) : bool :=
  negb (JS.isWhiteSpace c || (c =? 64)%N).

(** [local@domain.tld], each part non-empty and made of [email_char]s. *)
Definition email_shape (s : list N) : Prop :=
  exists a b c,
    s = a ++ 64%N :: b ++ 46%N :: c
    /\ a <> [] /\ b <> [] /\ c <> []
    /\ Forall (fun x => email_char x = true) a
    /\ Forall (fun x => email_char x = true) b
    /\ Forall (fun x => email_char x = true) c.

(** The decimal numeral of a natural number, as [String(n)] writes it. *)
Fixpoint uint_codes (d : Decimal.uint) : list N :=
  match d with
  | Decimal.Nil => []
  | Decimal.D0 d => 48%N :: uint_codes d
  | Decimal.D1 d => 49%N :: uint_codes d
  | Decimal.D2 d => 50%N :: uint_codes d
  | Decimal.D3 d => 51%N :: uint_codes d
  | Decimal.D4 d => 52%N :: uint_codes d
  | Decimal.D5 d => 53%N :: uint_codes d
  | Decimal.D6 d => 54%N :: uint_codes d
  | Decimal.D7 d => 55%N :: uint_codes d
  | Decimal.D8 d => 56%N :: uint_codes d
  | Decimal.D9 d => 57%N :: uint_codes d
  end.

Definition numeral (n : N) : list N := uint_codes (N.to_uint n).

(** The values of the digits of a numeral. *)
Definition uint_values (d : Decimal.uint) : list Z :=
  (fun c => Z.of_N c - 48) <$> uint_codes d.

(** What [parseInt] reads a number from: white space, an optional sign,
    and then either [0x] or [0X] and a hexadecimal digit, or a decimal
    digit that does not start a [0x] or [0X]. *)
Definition starts_numeral (body : list N) : Prop :=
  (exists x d r, body = 48%N :: x :: d :: r
                 /\ (x = 120%N \/ x = 88%N) /\ is_hex_digit d = true)
  \/ (exists d r, body = d :: r /\ is_digit d = true
                  /\ ~ (d = 48%N /\ exists x r', r = x :: r' /\ (x = 120%N \/ x = 88%N))).

Definition has_integer_prefix (v : list N) : Prop :=
  exists ws sign body,
    v = ws ++ sign ++ body
    /\ Forall (fun c => JS.isWhiteSpace c = true) ws
    /\ (sign = [] \/ sign = [43%N] \/ sign = [45%N])
    /\ starts_numeral body.

(** [pieces.join(sep)] for a separator of one code unit. *)
Fixpoint join (sep : N) (pieces : list (list N)) : list N :=
  match pieces with
  | [] => []
  | [p] => p
  | p :: rest => p ++ sep :: join sep rest
  end.

(** What holds of every URL that the parser returns: a URL with a special
    scheme has a host, and a port is a 16-bit unsigned integer. *)
Definition url_ok (u : URL.URLRecord) : Prop :=
  (URL.is_special u = true -> URL.host_of u <> None)
  /\ (forall p, URL.port u = Some p -> 0 <= p <= 65535).

(** The host and the port after the states that follow the scheme. *)
Definition after_authority (u u' : URL.URLRecord) : Prop :=
  URL.scheme u' = URL.scheme u
  /\ (URL.host_of u' = URL.host_of u \/ URL.host_of u' <> None)
  /\ (forall p, URL.port u' = Some p -> URL.port u = Some p \/ 0 <= p <= 65535).

(** The host state and the states before it set the host. *)
Definition with_host (u u' : URL.URLRecord) : Prop :=
  URL.scheme u' = URL.scheme u
  /\ URL.host_of u' <> None
  /\ (forall p, URL.port u' = Some p -> URL.port u = Some p \/ 0 <= p <= 65535).

(** ** Logger calls *)

Inductive level := Info | Error | Warn | Debug | Success.

Definition logger_call {A : Type} (env : gmap (list N) (list N))
    (c : level * list (Console.value A)) : list (Console.call A) :=
  match c.1 with
  | Info => Logger.info env c.2
  | Error => Logger.error env c.2
  | Warn => Logger.warn env c.2
  | Debug => Logger.debug env c.2
  | Success => Logger.success env c.2
  end.

(** The console calls of a sequence of logger calls. *)
Definition logger_run {A : Type} (env : gmap (list N) (list N))
    (cs : list (level * list (Console.value A))) : list (Console.call A) :=
  concat (logger_call env <$> cs).

Definition tag (l : level) : list N :=
  match l with
  | Info => lit "[INFO]"
  | Error => lit "[ERROR]"
  | Warn => lit "[WARN]"
  | Debug => lit "[DEBUG]"
  | Success => lit "[SUCCESS]"
  end.

Definition console_method (l : level) : Console.method :=
  match l with
  | Info => Console.m_log
  | Error => Console.m_error
  | Warn => Console.m_warn
  | Debug => Console.m_debug
  | Success => Console.m_log
  end.

Global Instance level_eq_dec : EqDecision level.
Proof. solve_decision. Defined.

(** What [logger.error] writes outside development. *)
Definition redacted_error {A : Type} (c : level * list (Console.value A))
  : Console.call A :=
  Console.Call Console.m_error
    [Console.VString (lit "[ERROR]"); Logger.first_arg c.2].

(** What a logger call writes in development. *)
Definition tagged_call {A : Type} (c : level * list (Console.value A))
  : Console.call A :=
  Console.Call (console_method c.1) (Console.VString (tag c.1) :: c.2).

(** Two calls of the logger. *)
Definition sample_calls : list (level * list (Console.value unit)) :=
  [ (Info, [Console.VString (lit "listening")]);
    (Error, [Console.VString (lit "failed"); Console.VOther tt]) ].

(** ** Lines of the data store *)

(** The [console.error] call of the data store for an error caught:
    [what], the file name and a colon, then the message of the error. *)
Definition error_line {A : Type} (what filename : list N) (e : DB.Error)
  : Console.call A :=
  Console.Call Console.m_error
    [Console.VString (what ++ filename ++ lit ":");
     Console.VString (DB.message e)].

(** ** A file system in memory

    Files as a finite map from paths to contents, values that are their
    own JSON text: an instance of the parameters of the data store, for
    runs on sample inputs. *)
Module MemoryStore.

Definition readFileSync (fs : gmap (list N) (list N)) (path : list N)
  : DB.Error + list N :=
  match fs !! path with
  | Some text => inr text
  | None => inl (DB.mkError (lit "ENOENT: no such file or directory"))
  end.

Definition writeFileSync (fs : gmap (list N) (list N)) (path : list N)
    (data : option (list N)) : gmap (list N) (list N) * option DB.Error :=
  match data with
  | Some text => (<[path := text]> fs, None)
  | None => (fs, Some (DB.mkError (lit "The data argument must be of type string")))
  end.

Definition path_join (dir file : list N) : list N := dir ++ 47%N :: file.

Definition dataDir : list N := lit "/srv/backend/data".

Definition readData :=
  DB.readData (Value := list N) [] dataDir path_join readFileSync inr.

Definition writeData :=
  DB.writeData (Value := list N) dataDir path_join writeFileSync
    (fun d => inr (Some d)).

End MemoryStore.

(** * Properties *)

(** ** Runs on sample inputs *)

Example parseInt_decimal : JS.parseInt (Some (lit "3000")) = JS.Int 3000.
Proof. reflexivity. Qed.

(** [parseInt] reads the longest numeric prefix. *)
Example parseInt_prefix : JS.parseInt (Some (lit "80abc")) = JS.Int 80.
Proof. reflexivity. Qed.

Example parseInt_sign : JS.parseInt (Some (lit "  -42")) = JS.Int (-42).
Proof. reflexivity. Qed.

Example parseInt_hex : JS.parseInt (Some (lit "0x1F")) = JS.Int 31.
Proof. reflexivity. Qed.

Example parseInt_letters : JS.parseInt (Some (lit "abc")) = JS.NaN.
Proof. reflexivity. Qed.

Example parseInt_undefined : JS.parseInt None = JS.NaN.
Proof. reflexivity. Qed.

Example chat_id_negative : JS.test chat_id_pattern (lit "-1001234") = true.
Proof. reflexivity. Qed.

Example chat_id_name : JS.test chat_id_pattern (lit "@channel") = false.
Proof. reflexivity. Qed.

(** With every required setting present and valid the run writes the
    acknowledgment and nothing else, and proceeds. *)
Example run_valid :
  findings env_valid = mkFindings [] [] []
  /\ checkEnvironment env_valid = ([ConsoleLog line_validated], Some tt).
Proof. split; vm_compute; reflexivity. Qed.

(** With only a short secret set, in production, the run records three
    Missing findings and the length violation, and halts. *)
Example run_short_secret :
  missing (findings env_short_secret)
  = [lit "PORT"; lit "TELEGRAM_BOT_TOKEN"; lit "TELEGRAM_CHAT_ID"]
  /\ critical (findings env_short_secret) = [msg_jwt_short]
  /\ outcome (checkEnvironment env_short_secret) = Halt.
Proof. repeat split; vm_compute; reflexivity. Qed.

(** A malformed origin is named in its warning. *)
Example run_origins :
  warnings (findings (env_of [("PORT", "8080");
                              ("ALLOWED_ORIGINS", "https://a.example, ftp://b ,,")]))
  = [msg_origin (lit "ftp://b")].
Proof. vm_compute. reflexivity. Qed.

Example number_prefix hp :
  validateEnvValue hp None (Some (lit "12abc")) (Some (lit "number")) = Normal true.
Proof. reflexivity. Qed.

Example number_letters hp :
  validateEnvValue hp None (Some (lit "abc")) (Some (lit "number")) = Normal false.
Proof. reflexivity. Qed.

Example boolean_true hp :
  validateEnvValue hp None (Some (lit "true")) (Some (lit "boolean")) = Normal true.
Proof. reflexivity. Qed.

Example boolean_upper hp :
  validateEnvValue hp None (Some (lit "TRUE")) (Some (lit "boolean")) = Normal false.
Proof. reflexivity. Qed.

Example email_ok hp :
  validateEnvValue hp None (Some (lit "a@b.co")) (Some (lit "email")) = Normal true.
Proof. reflexivity. Qed.

Example email_no_dot hp :
  validateEnvValue hp None (Some (lit "a@b")) (Some (lit "email")) = Normal false.
Proof. reflexivity. Qed.

Example email_no_at hp :
  validateEnvValue hp None (Some (lit "ab.co")) (Some (lit "email")) = Normal false.
Proof. reflexivity. Qed.

Example string_default hp :
  validateEnvValue hp None (Some (lit "x")) None = Normal true.
Proof. reflexivity. Qed.

(** "not a url" has no scheme: the constructor throws, the function
    returns false. *)
Example url_no_scheme hp :
  URL.new hp (lit "not a url") = Throw TypeError
  /\ validateEnvValue hp None (Some (lit "not a url")) (Some (lit "url")) = Normal false.
Proof. split; reflexivity. Qed.

(** "https://example.com" is accepted when the host parser accepts its
    host. *)
Example url_https hp h :
  hp (lit "example.com") false = Some h ->
  validateEnvValue hp None (Some (lit "https://example.com")) (Some (lit "url"))
  = Normal true.
Proof.
  intros H. unfold validateEnvValue, URL.new, URL.basic_URL_parser.
  vm_compute. vm_compute in H. by rewrite H.
Qed.

(** A special scheme needs a host. *)
Example url_https_no_host hp :
  validateEnvValue hp None (Some (lit "https://")) (Some (lit "url")) = Normal false.
Proof. reflexivity. Qed.

(** ** Truthiness *)

Lemma truthy_false (v : option (list N)) :
  JS.truthy v = false <-> v = None \/ v = Some [].
Proof.
  destruct v as [[|c s]|]; simpl; split; intros H; auto;
    try discriminate; destruct H; discriminate.
Qed.

Lemma truthy_true (v : option (list N)) :
  JS.truthy v = true <-> exists s, v = Some s /\ s <> [].
Proof.
  destruct v as [[|c s]|]; simpl; split; intros H; try discriminate.
  - destruct H as (s & [= <-] & Hs). congruence.
  - exists (c :: s). split; [reflexivity | discriminate].
  - reflexivity.
  - destruct H as (s & Hs & _). discriminate.
Qed.

Lemma absent_truthy env name :
  absent env name <-> JS.truthy (env !! name) = false.
Proof. unfold absent. symmetry. apply truthy_false. Qed.

(** ** The arrays after each block of the checks *)

Lemma cond_push_missing c x f :
  cond c (push_missing x) f =
  mkFindings (missing f ++ (if c then [x] else [])) (warnings f) (critical f).
Proof. destruct c, f; simpl; unfold push_missing; simpl; by rewrite ?app_nil_r. Qed.

Lemma cond_push_warning c x f :
  cond c (push_warning x) f =
  mkFindings (missing f) (warnings f ++ (if c then [x] else [])) (critical f).
Proof. destruct c, f; simpl; unfold push_warning; simpl; by rewrite ?app_nil_r. Qed.

Lemma cond_push_critical c x f :
  cond c (push_critical x) f =
  mkFindings (missing f) (warnings f) (critical f ++ (if c then [x] else [])).
Proof. destruct c, f; simpl; unfold push_critical; simpl; by rewrite ?app_nil_r. Qed.

Lemma forEach_push_missing (c : list N -> bool) (l : list (list N)) f :
  forEach l (fun x => cond (c x) (push_missing x)) f =
  mkFindings (missing f ++ filter (fun x => c x = true) l) (warnings f) (critical f).
Proof.
  unfold forEach. revert f. induction l as [|x l IH]; intros f; simpl.
  - destruct f; simpl. by rewrite app_nil_r.
  - rewrite IH, cond_push_missing. cbn [missing warnings critical]. rewrite filter_cons.
    destruct (c x) eqn:Hc; cbn [app].
    + rewrite decide_True by done. by rewrite <- app_assoc.
    + rewrite decide_False by congruence. by rewrite app_nil_r.
Qed.

Lemma forEach_push_warning {A} (c : A -> bool) (m : A -> list N) (l : list A) f :
  forEach l (fun x => cond (c x) (push_warning (m x))) f =
  mkFindings (missing f)
    (warnings f ++ (m <$> filter (fun x => c x = true) l)) (critical f).
Proof.
  unfold forEach. revert f. induction l as [|x l IH]; intros f; simpl.
  - destruct f; simpl. by rewrite app_nil_r.
  - rewrite IH, cond_push_warning. cbn [missing warnings critical]. rewrite filter_cons.
    destruct (c x) eqn:Hc; cbn [app].
    + rewrite decide_True by done. by rewrite <- app_assoc.
    + rewrite decide_False by congruence. by rewrite app_nil_r.
Qed.

Section Checks.

Variable env : gmap (list N) (list N).

Lemma check_required_eq f :
  check_required env f =
  mkFindings (missing f ++ filter (absent env) requiredEnvVars)
    (warnings f) (critical f).
Proof.
  unfold check_required.
  rewrite (forEach_push_missing (fun x => negb (JS.truthy (env !! x)))).
  f_equal. f_equal. apply list_filter_iff. intros x.
  rewrite absent_truthy. by destruct (JS.truthy (env !! x)).
Qed.

Lemma fold_findings f : mkFindings (missing f) (warnings f) (critical f) = f.
Proof. by destruct f. Qed.

Lemma check_critical_eq f :
  check_jwt_example env (check_jwt_strength env f) =
  mkFindings (missing f) (warnings f) (critical f ++ jwt_critical env).
Proof.
  unfold check_jwt_example, check_jwt_strength, jwt_critical.
  destruct (JS.truthy (env !! lit "JWT_SECRET")); unfold cond at 2; cbv zeta beta iota.
  - rewrite !cond_push_critical. cbn [missing warnings critical].
    by rewrite <- !app_assoc.
  - rewrite cond_push_critical. done.
Qed.

Lemma check_bot_token_eq f :
  check_bot_token env f =
  mkFindings (missing f) (warnings f ++ warnings_before_port env) (critical f).
Proof. unfold check_bot_token. by rewrite cond_push_warning. Qed.

Lemma check_port_eq f :
  check_port env f =
  mkFindings (missing f)
    (warnings f ++ (if port_invalid env then [msg_port] else [])) (critical f).
Proof. unfold check_port. cbv zeta. by rewrite cond_push_warning. Qed.

Lemma check_after_port_eq f :
  check_origins env (check_chat_id env
    (check_rate_limit_max env (check_rate_limit_window env f))) =
  mkFindings (missing f) (warnings f ++ warnings_after_port env) (critical f).
Proof.
  unfold check_origins, check_chat_id, check_rate_limit_max,
    check_rate_limit_window, warnings_after_port. cbv zeta.
  set (w := JS.truthy (env !! lit "RATE_LIMIT_WINDOW_MS")).
  set (m := JS.truthy (env !! lit "RATE_LIMIT_MAX_REQUESTS")).
  set (o := JS.truthy (env !! lit "ALLOWED_ORIGINS")).
  set (f1 := cond w _ f).
  assert (H1 : f1 = mkFindings (missing f)
                 (warnings f ++ (if w && (JS.isNaN (JS.parseInt (env !! lit "RATE_LIMIT_WINDOW_MS"))
                    || JS.lt (JS.parseInt (env !! lit "RATE_LIMIT_WINDOW_MS")) 1000)
                  then [msg_window] else [])) (critical f)).
  { subst f1. destruct w; unfold cond at 1; cbn [andb].
    - by rewrite cond_push_warning.
    - by rewrite app_nil_r, fold_findings. }
  rewrite H1. clear H1 f1.
  set (f2 := cond m _ _).
  assert (H2 : f2 = mkFindings (missing f)
                 ((warnings f ++ (if w && (JS.isNaN (JS.parseInt (env !! lit "RATE_LIMIT_WINDOW_MS"))
                    || JS.lt (JS.parseInt (env !! lit "RATE_LIMIT_WINDOW_MS")) 1000)
                  then [msg_window] else []))
                  ++ (if m && (JS.isNaN (JS.parseInt (env !! lit "RATE_LIMIT_MAX_REQUESTS"))
                    || JS.lt (JS.parseInt (env !! lit "RATE_LIMIT_MAX_REQUESTS")) 1)
                  then [msg_max_requests] else [])) (critical f)).
  { subst f2. destruct m; unfold cond at 1; cbn [andb].
    - by rewrite cond_push_warning.
    - by rewrite app_nil_r. }
  rewrite H2. clear H2 f2.
  rewrite cond_push_warning. cbn [missing warnings critical].
  destruct o; unfold cond at 1.
  - rewrite (forEach_push_warning origin_invalid (fun origin => msg_origin (JS.trim origin))).
    cbn [missing warnings critical]. by rewrite <- !app_assoc.
  - by rewrite app_nil_r, <- !app_assoc.
Qed.

Lemma findings_eq :
  findings env =
  mkFindings (filter (absent env) requiredEnvVars)
    (warnings_before_port env ++ (if port_invalid env then [msg_port] else [])
     ++ warnings_after_port env)
    (jwt_critical env).
Proof.
  unfold findings. cbv zeta.
  rewrite check_required_eq. cbn [missing warnings critical app].
  rewrite check_critical_eq. cbn [missing warnings critical app].
  rewrite check_bot_token_eq. cbn [missing warnings critical app].
  rewrite check_port_eq. cbn [missing warnings critical app].
  rewrite check_after_port_eq. cbn [missing warnings critical app].
  by rewrite <- app_assoc.
Qed.

End Checks.

(** ** The report *)

Lemma forEachIO_console_error {A} (l : list A) (g : A -> list N) :
  forEachIO l (fun x => console_error (g x)) =
  ((fun x => ConsoleError (g x)) <$> l, Some tt).
Proof.
  induction l as [|x l IH]; [reflexivity|].
  cbn [forEachIO]. rewrite IH. reflexivity.
Qed.

Lemma forEachIO_console_warn {A} (l : list A) (g : A -> list N) :
  forEachIO l (fun x => console_warn (g x)) =
  ((fun x => ConsoleWarn (g x)) <$> l, Some tt).
Proof.
  induction l as [|x l IH]; [reflexivity|].
  cbn [forEachIO]. rewrite IH. reflexivity.
Qed.

Lemma forEachIO_console_log {A} (l : list A) (g : A -> list N) :
  forEachIO l (fun x => console_log (g x)) =
  ((fun x => ConsoleLog (g x)) <$> l, Some tt).
Proof.
  induction l as [|x l IH]; [reflexivity|].
  cbn [forEachIO]. rewrite IH. reflexivity.
Qed.

Lemma nonempty_true {A} (l : list A) : nonempty l = true <-> l <> [].
Proof. destruct l; unfold nonempty; simpl; split; (done || lia). Qed.

Lemma nonempty_false {A} (l : list A) : nonempty l = false <-> l = [].
Proof. destruct l; unfold nonempty; simpl; split; (done || lia). Qed.

Lemma report_eq env f :
  report env f =
  if nonempty (critical f) && is_production env then
    (critical_lines f ++ [ConsoleError line_cannot_start; ProcessExit 1], None)
  else if nonempty (missing f) then
    (critical_lines f ++ missing_lines f ++ [ProcessExit 1], None)
  else
    (critical_lines f ++ warning_lines f ++ [ConsoleLog line_validated]
     ++ optional_lines env, Some tt).
Proof.
  unfold report, critical_lines, missing_lines, warning_lines, optional_lines.
  cbv zeta. unfold nonempty.
  rewrite !forEachIO_console_error, !forEachIO_console_warn, !forEachIO_console_log.
  destruct (0 <? Z.of_nat (length (critical f))), (is_production env),
    (0 <? Z.of_nat (length (missing f))), (0 <? Z.of_nat (length (warnings f))),
    (is_development env),
    (0 <? Z.of_nat (length (filter (fun v => JS.truthy (env !! v) = false)
                              optionalEnvVars)));
    cbn [mbind IO_bind mret IO_ret when console_error console_warn console_log
         process_exit app andb];
    rewrite ?app_nil_r, <- ?app_assoc; reflexivity.
Qed.

Lemma outcome_report env f :
  outcome (report env f) =
  if (nonempty (critical f) && is_production env) || nonempty (missing f)
  then Halt else Proceed.
Proof.
  rewrite report_eq.
  by destruct (nonempty (critical f) && is_production env), (nonempty (missing f)).
Qed.

Lemma is_production_true env :
  is_production env = true <-> env !! lit "NODE_ENV" = Some (lit "production").
Proof. unfold is_production. by rewrite bool_decide_eq_true. Qed.

(** The run halts exactly when a required setting is missing, or a
    Critical finding exists in production. *)
Lemma outcome_halt env :
  outcome (checkEnvironment env) = Halt <->
  (critical (findings env) <> [] /\ env !! lit "NODE_ENV" = Some (lit "production"))
  \/ missing (findings env) <> [].
Proof.
  unfold checkEnvironment. rewrite outcome_report.
  rewrite <- is_production_true, <- !nonempty_true.
  destruct (nonempty (critical (findings env))), (is_production env),
    (nonempty (missing (findings env))); simpl; split; intros H;
    try done; try (by left); try (by right);
    destruct H as [[? ?]|?]; done.
Qed.

Lemma outcome_proceed env :
  outcome (checkEnvironment env) = Proceed <->
  ~ (critical (findings env) <> [] /\ env !! lit "NODE_ENV" = Some (lit "production"))
  /\ missing (findings env) = [].
Proof.
  rewrite <- (nonempty_false (missing _)), <- is_production_true, <- nonempty_true.
  unfold checkEnvironment. rewrite outcome_report.
  destruct (nonempty (critical (findings env))), (is_production env),
    (nonempty (missing (findings env))); simpl; split; intros H;
    try done; try (split; [intros [? ?]|]; done);
    destruct H as [H ?]; try done; destruct H; done.
Qed.

Lemma findings_missing env :
  missing (findings env) = filter (absent env) requiredEnvVars.
Proof. by rewrite findings_eq. Qed.

Lemma findings_critical env : critical (findings env) = jwt_critical env.
Proof. by rewrite findings_eq. Qed.

Lemma findings_warnings env :
  warnings (findings env) =
  warnings_before_port env ++ (if port_invalid env then [msg_port] else [])
  ++ warnings_after_port env.
Proof. by rewrite findings_eq. Qed.

(** ** Substrings *)

Lemma startsWith_spec (s p : list N) :
  JS.startsWith s p = true <-> exists b, s = p ++ b.
Proof.
  revert s. induction p as [|a p IH]; intros s; simpl.
  - destruct s; simpl; (split; [intros _; by eexists | done]).
  - destruct s as [|c s]; simpl.
    + split; [done | intros [b Hb]; discriminate].
    + rewrite andb_true_iff, IH, N.eqb_eq. split.
      * intros [-> [b ->]]. by exists b.
      * intros [b [= -> ->]]. split; [done | by exists b].
Qed.

Lemma includes_spec (s p : list N) :
  JS.includes s p = true <-> exists a b, s = a ++ p ++ b.
Proof.
  induction s as [|c s IH]; cbn [JS.includes].
  - rewrite orb_false_r, startsWith_spec. split.
    + intros [b Hb]. by exists [], b.
    + intros (a & b & Hab). destruct a; [by exists b | discriminate].
  - rewrite orb_true_iff, startsWith_spec, IH. split.
    + intros [[b Hb] | (a & b & ->)].
      * by exists [], b.
      * by exists (c :: a), b.
    + intros (a & b & Hab). destruct a as [|c' a]; simpl in Hab.
      * left. by exists b.
      * injection Hab as -> ->. right. by exists a, b.
Qed.

(** ** The console lines and [process.exit] *)

Lemma no_exit_nil : no_exit [].
Proof. intros c H. by apply elem_of_nil in H. Qed.

Lemma no_exit_app t1 t2 : no_exit t1 -> no_exit t2 -> no_exit (t1 ++ t2).
Proof. intros H1 H2 c [H|H]%elem_of_app; [by apply (H1 c) | by apply (H2 c)]. Qed.

Lemma no_exit_cons e t :
  (forall c, e <> ProcessExit c) -> no_exit t -> no_exit (e :: t).
Proof. intros He Ht c [H|H]%elem_of_cons; [by apply (He c) | by apply (Ht c)]. Qed.

Lemma no_exit_fmap {A} (g : A -> event) (l : list A) :
  (forall x c, g x <> ProcessExit c) -> no_exit (g <$> l).
Proof. intros Hg c (x & Hx & _)%list_elem_of_fmap. by apply (Hg x c). Qed.

Lemma no_exit_critical_lines f : no_exit (critical_lines f).
Proof.
  unfold critical_lines. destruct (nonempty _); [|apply no_exit_nil].
  apply no_exit_cons; [done|]. by apply no_exit_fmap.
Qed.

Lemma no_exit_missing_lines f : no_exit (missing_lines f).
Proof.
  unfold missing_lines. apply no_exit_cons; [done|].
  apply no_exit_app; [by apply no_exit_fmap|].
  apply no_exit_cons; [done | apply no_exit_nil].
Qed.

Lemma no_exit_warning_lines f : no_exit (warning_lines f).
Proof.
  unfold warning_lines. destruct (nonempty _); [|apply no_exit_nil].
  apply no_exit_cons; [done|]. by apply no_exit_fmap.
Qed.

Lemma no_exit_optional_lines env : no_exit (optional_lines env).
Proof.
  unfold optional_lines. cbv zeta. destruct (_ && _); [|apply no_exit_nil].
  apply no_exit_cons; [done|]. by apply no_exit_fmap.
Qed.

Lemma not_substring_includes (p s : list N) :
  ~ substring p s -> JS.includes s p = false.
Proof.
  intros H. destruct (JS.includes s p) eqn:E; [|done].
  apply includes_spec in E. by destruct H.
Qed.

(** The Critical list is empty when none of the three tests on the secret
    fires. *)
Lemma jwt_critical_nil (env : gmap (list N) (list N)) (secret : list N) :
  env !! lit "JWT_SECRET" = Some secret ->
  (Z.of_nat (length secret) <? 32) = false ->
  bool_decide (Some secret = Some (lit "play-kids-secret-key")) = false ->
  JS.includes secret (lit "your_super_secret") = false ->
  critical (findings env) = [].
Proof.
  intros Hs Hlen Hdef Hinc. rewrite findings_critical. unfold jwt_critical.
  rewrite Hs. unfold JS.string_of, opt_includes. cbn [from_option id].
  rewrite Hlen, Hdef, Hinc. by destruct (JS.truthy _).
Qed.

(** ** Required settings *)

(** C1: in every environment in which a required setting (PORT, JWT_SECRET,
    TELEGRAM_BOT_TOKEN, TELEGRAM_CHAT_ID) is absent or empty, the run halts,
    and the Missing list is exactly the absent required names, in the order
    of the required settings. *)
Theorem missing_required_halts (env : gmap (list N) (list N)) :
  (exists name, name ∈ requiredEnvVars /\ absent env name) ->
  outcome (checkEnvironment env) = Halt /\
  missing (findings env) = filter (absent env) requiredEnvVars.
Proof.
  intros (name & Hreq & Habs). split; [|apply findings_missing].
  apply outcome_halt. right. rewrite findings_missing.
  intros Hnil.
  assert (Hin : name ∈ filter (absent env) requiredEnvVars)
    by (by apply list_elem_of_filter).
  rewrite Hnil in Hin. by apply elem_of_nil in Hin.
Qed.

Lemma missing_required_halts_witness :
  outcome (checkEnvironment env_short_secret) = Halt /\
  missing (findings env_short_secret) =
  filter (absent env_short_secret) requiredEnvVars.
Proof.
  apply (missing_required_halts env_short_secret).
  exists (lit "PORT"). split.
  - apply list_elem_of_here.
  - left. vm_compute. reflexivity.
Defined.

(** ** The outcome *)

(** C2: a Critical finding in production mode halts the run; a Missing
    finding halts it in every mode; a run with neither (only Warning or Info
    findings, or Critical findings outside production) proceeds. *)
Theorem halt_invariant (env : gmap (list N) (list N)) :
  let f := findings env in
  let production := env !! lit "NODE_ENV" = Some (lit "production") in
  (critical f <> [] /\ production -> outcome (checkEnvironment env) = Halt) /\
  (missing f <> [] -> outcome (checkEnvironment env) = Halt) /\
  (~ (critical f <> [] /\ production) /\ missing f = [] ->
   outcome (checkEnvironment env) = Proceed).
Proof.
  cbv zeta. split; [|split].
  - intros H. apply outcome_halt. by left.
  - intros H. apply outcome_halt. by right.
  - intros H. by apply outcome_proceed.
Qed.

Lemma halt_invariant_witness :
  outcome (checkEnvironment env_weak_secret) = Halt /\
  outcome (checkEnvironment env_short_secret) = Halt /\
  outcome (checkEnvironment env_weak_secret_dev) = Proceed.
Proof.
  split; [|split].
  - apply (proj1 (halt_invariant env_weak_secret)).
    split; [vm_compute; discriminate | vm_compute; reflexivity].
  - apply (proj1 (proj2 (halt_invariant env_short_secret))).
    vm_compute; discriminate.
  - apply (proj2 (proj2 (halt_invariant env_weak_secret_dev))).
    split; [intros [_ H]; vm_compute in H; discriminate | vm_compute; reflexivity].
Defined.

(** ** The secret *)

(** C3: when JWT_SECRET is set to a string of at least 32 code units that is
    not the default secret and does not contain "your_super_secret", the run
    records no Critical finding (every Critical finding concerns
    JWT_SECRET). *)
Theorem strong_secret_no_critical (env : gmap (list N) (list N)) (secret : list N) :
  env !! lit "JWT_SECRET" = Some secret ->
  (32 <= length secret)%nat ->
  secret <> lit "play-kids-secret-key" ->
  ~ substring (lit "your_super_secret") secret ->
  critical (findings env) = [].
Proof.
  intros Hs Hlen Hdef Hex. apply (jwt_critical_nil env secret).
  - exact Hs.
  - apply Z.ltb_ge. lia.
  - apply bool_decide_eq_false. congruence.
  - by apply not_substring_includes.
Qed.

Lemma strong_secret_no_critical_witness : critical (findings env_valid) = [].
Proof.
  apply (strong_secret_no_critical env_valid (lit forty_x)).
  - vm_compute. reflexivity.
  - vm_compute. lia.
  - vm_compute. discriminate.
  - intros H. apply includes_spec in H. vm_compute in H. discriminate.
Defined.

(** ** Process termination *)

Lemma trace_checkEnvironment env :
  let f := findings env in
  checkEnvironment env =
  if nonempty (critical f) && is_production env then
    (critical_lines f ++ [ConsoleError line_cannot_start; ProcessExit 1], None)
  else if nonempty (missing f) then
    (critical_lines f ++ missing_lines f ++ [ProcessExit 1], None)
  else
    (critical_lines f ++ warning_lines f ++ [ConsoleLog line_validated]
     ++ optional_lines env, Some tt).
Proof. apply report_eq. Qed.

(** C4, as stated, fails: with no setting at all the validator itself calls
    [process.exit(1)], as the last action of its run. *)
Lemma validator_exits_counterexample :
  ProcessExit 1 ∈ trace (checkEnvironment ∅) /\
  last (trace (checkEnvironment ∅)) = Some (ProcessExit 1).
Proof.
  split; [|vm_compute; reflexivity].
  apply (list_elem_of_lookup_2 _ 6). vm_compute. reflexivity.
Qed.

(** C4, amended: the validator ends the process itself.  A run that halts
    calls [process.exit(1)] exactly once, as its last action; a run that
    proceeds never calls [process.exit]. *)
Theorem validator_exits_itself (env : gmap (list N) (list N)) :
  match outcome (checkEnvironment env) with
  | Halt =>
      exists pre, trace (checkEnvironment env) = pre ++ [ProcessExit 1]
                  /\ no_exit pre
  | Proceed => no_exit (trace (checkEnvironment env))
  end.
Proof.
  rewrite trace_checkEnvironment. cbv zeta.
  destruct (nonempty (critical (findings env)) && is_production env);
    [|destruct (nonempty (missing (findings env)))];
    unfold outcome, trace; cbn [fst snd].
  - exists (critical_lines (findings env) ++ [ConsoleError line_cannot_start]).
    split; [by rewrite <- app_assoc|].
    apply no_exit_app; [apply no_exit_critical_lines|].
    apply no_exit_cons; [done | apply no_exit_nil].
  - exists (critical_lines (findings env) ++ missing_lines (findings env)).
    split; [by rewrite <- app_assoc|].
    apply no_exit_app; [apply no_exit_critical_lines | apply no_exit_missing_lines].
  - apply no_exit_app; [apply no_exit_critical_lines|].
    apply no_exit_app; [apply no_exit_warning_lines|].
    apply no_exit_app; [|apply no_exit_optional_lines].
    apply no_exit_cons; [done | apply no_exit_nil].
Qed.

(** ** The success acknowledgment *)

(** C8, as stated, fails: with every required setting present, a secret
    that is too short and production mode, no Missing finding exists, and
    the run ends in [process.exit(1)] without the acknowledgment. *)
Lemma success_acknowledgment_counterexample :
  missing (findings env_weak_secret) = [] /\
  (ConsoleLog line_validated ∉ trace (checkEnvironment env_weak_secret)) /\
  trace (checkEnvironment env_weak_secret) =
  [ ConsoleError line_critical; ConsoleError (item msg_jwt_short);
    ConsoleError line_cannot_start; ProcessExit 1 ].
Proof.
  assert (Ht : trace (checkEnvironment env_weak_secret) =
    [ ConsoleError line_critical; ConsoleError (item msg_jwt_short);
      ConsoleError line_cannot_start; ProcessExit 1 ])
    by (vm_compute; reflexivity).
  split; [vm_compute; reflexivity|]. split; [|exact Ht].
  rewrite Ht. intros H.
  repeat (apply elem_of_cons in H as [H|H]; [discriminate|]).
  by apply elem_of_nil in H.
Qed.

(** C8, amended: when no Missing finding is present and no Critical finding
    stops a production run, the run proceeds and writes the acknowledgment,
    after the line of every warning and before only informational lines. *)
Theorem success_acknowledgment (env : gmap (list N) (list N)) :
  missing (findings env) = [] ->
  ~ (critical (findings env) <> []
     /\ env !! lit "NODE_ENV" = Some (lit "production")) ->
  outcome (checkEnvironment env) = Proceed /\
  exists pre post,
    trace (checkEnvironment env) = pre ++ ConsoleLog line_validated :: post
    /\ (forall w, w ∈ warnings (findings env) -> ConsoleWarn (item w) ∈ pre)
    /\ (forall e, e ∈ post -> exists line, e = ConsoleLog line).
Proof.
  intros Hm Hc.
  assert (Hp : outcome (checkEnvironment env) = Proceed)
    by (by apply outcome_proceed).
  split; [exact Hp|].
  revert Hp. rewrite trace_checkEnvironment. cbv zeta.
  destruct (nonempty (critical (findings env)) && is_production env);
    [discriminate|].
  destruct (nonempty (missing (findings env))); [discriminate|]. intros _.
  exists (critical_lines (findings env) ++ warning_lines (findings env)).
  exists (optional_lines env).
  unfold trace. cbn [fst]. split; [by rewrite <- app_assoc|]. split.
  - intros w Hw. apply elem_of_app. right. unfold warning_lines.
    assert (Hne : nonempty (warnings (findings env)) = true).
    { apply nonempty_true. intros E. rewrite E in Hw. by apply elem_of_nil in Hw. }
    rewrite Hne. apply elem_of_cons. right.
    apply list_elem_of_fmap. by exists w.
  - intros e. unfold optional_lines. cbv zeta.
    destruct (_ && _); [|by intros ?%elem_of_nil].
    intros [->|(v & -> & _)%list_elem_of_fmap]%elem_of_cons; by eexists.
Qed.

Lemma success_acknowledgment_witness :
  outcome (checkEnvironment env_port_99999) = Proceed /\
  exists pre post,
    trace (checkEnvironment env_port_99999) = pre ++ ConsoleLog line_validated :: post
    /\ (forall w, w ∈ warnings (findings env_port_99999) -> ConsoleWarn (item w) ∈ pre)
    /\ (forall e, e ∈ post -> exists line, e = ConsoleLog line).
Proof.
  apply (success_acknowledgment env_port_99999).
  - vm_compute. reflexivity.
  - intros [H _]. vm_compute in H. by apply H.
Defined.

(** ** The port *)

Lemma port_invalid_spec env :
  port_invalid env = true <->
  match JS.parseInt (env !! lit "PORT") with
  | JS.NaN => True
  | JS.Int p => p < 1 \/ 65535 < p
  end.
Proof.
  unfold port_invalid. cbv zeta.
  destruct (JS.parseInt (env !! lit "PORT")) as [|p]; simpl; [done|].
  rewrite orb_true_iff, !Z.ltb_lt. done.
Qed.

Lemma msg_origin_not_port t : msg_origin t <> msg_port.
Proof. unfold msg_origin. intros H. vm_compute in H. discriminate. Qed.

Lemma msg_port_not_before env : msg_port ∉ warnings_before_port env.
Proof.
  unfold warnings_before_port. destruct (opt_includes _ _).
  - intros [H|H]%elem_of_cons; [vm_compute in H; discriminate|].
    by apply elem_of_nil in H.
  - by intros ?%elem_of_nil.
Qed.

Lemma msg_port_not_after env : msg_port ∉ warnings_after_port env.
Proof.
  unfold warnings_after_port.
  intros [H|[H|[H|H]%elem_of_app]%elem_of_app]%elem_of_app.
  - destruct (_ && _); [|by apply elem_of_nil in H].
    apply list_elem_of_singleton in H. vm_compute in H. discriminate.
  - destruct (_ && _); [|by apply elem_of_nil in H].
    apply list_elem_of_singleton in H. vm_compute in H. discriminate.
  - destruct (_ && _); [|by apply elem_of_nil in H].
    apply list_elem_of_singleton in H. vm_compute in H. discriminate.
  - destruct (JS.truthy _); [|by apply elem_of_nil in H].
    apply list_elem_of_fmap in H as (o & Ho & _).
    symmetry in Ho. by apply msg_origin_not_port in Ho.
Qed.

(** The port warning is recorded exactly when the port check fails. *)
Lemma port_warning_iff env :
  msg_port ∈ warnings (findings env) <-> port_invalid env = true.
Proof.
  rewrite findings_warnings. split.
  - intros [H|[H|H]%elem_of_app]%elem_of_app.
    + by apply msg_port_not_before in H.
    + destruct (port_invalid env); [done | by apply elem_of_nil in H].
    + by apply msg_port_not_after in H.
  - intros ->. apply elem_of_app. right. apply elem_of_app. left.
    apply list_elem_of_here.
Qed.

(** The outcome does not depend on the warnings. *)
Lemma outcome_ignores_warnings env m w w' c :
  outcome (report env (mkFindings m w c)) =
  outcome (report env (mkFindings m w' c)).
Proof. by rewrite !outcome_report. Qed.

Lemma required_present env :
  ~ absent env (lit "PORT") -> ~ absent env (lit "JWT_SECRET") ->
  ~ absent env (lit "TELEGRAM_BOT_TOKEN") -> ~ absent env (lit "TELEGRAM_CHAT_ID") ->
  missing (findings env) = [].
Proof.
  intros H1 H2 H3 H4. rewrite findings_missing. unfold requiredEnvVars.
  rewrite !filter_cons, filter_nil. by rewrite !decide_False by done.
Qed.

Lemma set_not_absent env name s : env !! name = Some s -> s <> [] -> ~ absent env name.
Proof. intros Hs Hne [H|H]; congruence. Qed.

(** C6: the port warning is recorded exactly when [PORT] does not parse as
    an integer or the integer is outside 1..65535; warnings do not block the
    startup (the outcome is the same whatever the Warning list holds); and
    with [PORT] set to "99999" and the other required settings present and
    valid, in any mode, the Warning list holds the port message and the run
    proceeds. *)
Theorem port_range_warning (env : gmap (list N) (list N)) :
  (msg_port ∈ warnings (findings env) <->
   match JS.parseInt (env !! lit "PORT") with
   | JS.NaN => True
   | JS.Int p => p < 1 \/ 65535 < p
   end) /\
  (forall w, outcome (report env (mkFindings (missing (findings env)) w
                                   (critical (findings env))))
             = outcome (checkEnvironment env)) /\
  (env !! lit "PORT" = Some (lit "99999") ->
   (exists secret, env !! lit "JWT_SECRET" = Some secret
                   /\ (32 <= length secret)%nat
                   /\ secret <> lit "play-kids-secret-key"
                   /\ ~ substring (lit "your_super_secret") secret) ->
   ~ absent env (lit "TELEGRAM_BOT_TOKEN") ->
   ~ absent env (lit "TELEGRAM_CHAT_ID") ->
   msg_port ∈ warnings (findings env)
   /\ outcome (checkEnvironment env) = Proceed).
Proof.
  split; [|split].
  - rewrite port_warning_iff. apply port_invalid_spec.
  - intros w. unfold checkEnvironment.
    rewrite <- (fold_findings (findings env)) at 3.
    apply outcome_ignores_warnings.
  - intros Hport (secret & Hs & Hlen & Hdef & Hex) Hbot Hchat. split.
    + apply port_warning_iff, port_invalid_spec. rewrite Hport.
      vm_compute. right. reflexivity.
    + apply outcome_proceed. split.
      * intros [Hc _]. apply Hc. apply (jwt_critical_nil env secret).
        -- exact Hs.
        -- apply Z.ltb_ge. lia.
        -- apply bool_decide_eq_false. congruence.
        -- by apply not_substring_includes.
      * apply required_present; try done.
        -- apply (set_not_absent _ _ _ Hport). discriminate.
        -- apply (set_not_absent _ _ _ Hs). intros ->. simpl in Hlen. lia.
Qed.

Lemma port_range_warning_witness :
  msg_port ∈ warnings (findings env_port_99999)
  /\ outcome (checkEnvironment env_port_99999) = Proceed.
Proof.
  apply (proj2 (proj2 (port_range_warning env_port_99999))).
  - vm_compute. reflexivity.
  - exists (lit forty_x). split; [vm_compute; reflexivity|].
    split; [vm_compute; lia|]. split; [vm_compute; discriminate|].
    intros H. apply includes_spec in H. vm_compute in H. discriminate.
  - intros [H|H]; vm_compute in H; discriminate.
  - intros [H|H]; vm_compute in H; discriminate.
Defined.

(** C10: the port check does not depend on the presence check.  When
    [PORT] is absent or empty the run records the Missing finding for PORT
    and the port warning as well (and halts on the Missing finding). *)
Theorem port_check_unconditional (env : gmap (list N) (list N)) :
  absent env (lit "PORT") ->
  lit "PORT" ∈ missing (findings env)
  /\ msg_port ∈ warnings (findings env)
  /\ outcome (checkEnvironment env) = Halt.
Proof.
  intros Habs.
  assert (Hm : lit "PORT" ∈ missing (findings env)).
  { rewrite findings_missing. apply list_elem_of_filter.
    split; [done | apply list_elem_of_here]. }
  split; [exact Hm|]. split.
  - apply port_warning_iff, port_invalid_spec.
    destruct Habs as [-> | ->]; vm_compute; exact I.
  - apply outcome_halt. right. intros E. rewrite E in Hm.
    by apply elem_of_nil in Hm.
Qed.

Lemma port_check_unconditional_witness :
  lit "PORT" ∈ missing (findings ∅)
  /\ msg_port ∈ warnings (findings ∅)
  /\ outcome (checkEnvironment ∅) = Halt.
Proof.
  apply (port_check_unconditional ∅). left. vm_compute. reflexivity.
Defined.

(** ** validateEnvValue *)

Section ValidateEnvValueProperties.

Variable host_parser : list N -> bool -> option URL.host.

Lemma validateEnvValue_falsy name value type :
  JS.truthy value = false ->
  validateEnvValue host_parser name value type = Normal false.
Proof. intros H. unfold validateEnvValue. by rewrite H. Qed.

Lemma validateEnvValue_other name value kind :
  kind ∉ [lit "number"; lit "boolean"; lit "url"; lit "email"] ->
  validateEnvValue host_parser name value (Some kind) = Normal (JS.truthy value).
Proof.
  intros H. repeat apply not_elem_of_cons in H as [? H].
  unfold validateEnvValue. cbn [default from_option id].
  destruct value as [[|c s]|]; cbn [JS.truthy negb]; try reflexivity.
  rewrite !bool_decide_eq_false_2 by done.
  reflexivity.
Qed.

Lemma scheme_state_shape buffer input u :
  URL.scheme_state host_parser buffer input = Some u ->
  exists body rest,
    input = body ++ 58%N :: rest /\ Forall (fun c => scheme_char c = true) body.
Proof.
  revert buffer. induction input as [|c input IH]; intros buffer; [done|].
  cbn [URL.scheme_state]. fold (scheme_char c).
  destruct (scheme_char c) eqn:Hc.
  - intros (body & rest & -> & Hb)%IH.
    exists (c :: body), rest. split; [done | by constructor].
  - destruct (c =? 58)%N eqn:Hcolon; [|done].
    apply N.eqb_eq in Hcolon as ->. intros _.
    by exists [], input.
Qed.

Lemma basic_URL_parser_scheme value u :
  URL.basic_URL_parser host_parser (URL.toUSVString value) = Some u ->
  has_scheme (url_input value).
Proof.
  unfold URL.basic_URL_parser, url_input. cbv zeta.
  destruct (filter _ _) as [|a input]; [done|].
  cbn [URL.scheme_start_state].
  destruct (URL.isASCIIAlpha a) eqn:Ha; [|done].
  intros (body & rest & -> & Hb)%scheme_state_shape.
  by exists a, body, rest.
Qed.

Lemma validateEnvValue_url name value :
  validateEnvValue host_parser name value (Some (lit "url")) =
  Normal (JS.truthy value &&
          bool_decide (is_Some (URL.basic_URL_parser host_parser
                                  (URL.toUSVString (JS.ToString value))))).
Proof.
  unfold validateEnvValue. cbn [default from_option id].
  destruct (JS.truthy value); cbn [negb andb]; [|done].
  change (bool_decide (lit "url" = lit "number")) with false.
  change (bool_decide (lit "url" = lit "boolean")) with false.
  change (bool_decide (lit "url" = lit "url")) with true.
  cbv iota. unfold URL.new.
  destruct (URL.basic_URL_parser _ _) as [u|]; cbn [try_catch].
  - by rewrite bool_decide_eq_true_2.
  - rewrite bool_decide_eq_false_2; [done|]. by intros [? ?].
Qed.

Lemma scheme_state_app buffer body rest :
  Forall (fun c => scheme_char c = true) body ->
  URL.scheme_state host_parser buffer (body ++ rest) =
  URL.scheme_state host_parser (buffer ++ (URL.lowercase <$> body)) rest.
Proof.
  intros H. revert buffer. induction H as [|c body Hc _ IH]; intros buffer.
  - by rewrite app_nil_r.
  - cbn [app URL.scheme_state]. fold (scheme_char c). rewrite Hc, IH.
    by rewrite <- app_assoc.
Qed.

(** A value made of a scheme that is not special, a colon and a rest that
    does not start with a slash is accepted: it parses to a URL with an
    opaque path and no host. *)
Lemma opaque_url_accepted name value a body rest :
  url_input value = a :: body ++ 58%N :: rest ->
  URL.isASCIIAlpha a = true ->
  Forall (fun c => scheme_char c = true) body ->
  URL.is_special_scheme (URL.lowercase <$> a :: body) = false ->
  (forall rest', rest <> 47%N :: rest') ->
  validateEnvValue host_parser name (Some value) (Some (lit "url")) = Normal true
  /\ exists u, URL.new host_parser value = Normal u /\ URL.host_of u = None.
Proof.
  intros Hin Ha Hbody Hspecial Hrest.
  assert (Hparse : URL.basic_URL_parser host_parser (URL.toUSVString value)
                   = Some (URL.mkURL (URL.lowercase <$> a :: body) None None)).
  { unfold URL.basic_URL_parser. cbv zeta. fold (url_input value). rewrite Hin.
    cbn [URL.scheme_start_state]. rewrite Ha.
    rewrite scheme_state_app by done. cbn [URL.scheme_state].
    change (URL.isASCIIAlphanumeric 58 || ((58 =? 43) || (58 =? 45) || (58 =? 46))%N)
      with false.
    change (58 =? 58)%N with true. cbv iota zeta.
    change ([URL.lowercase a] ++ (URL.lowercase <$> body))
      with (URL.lowercase <$> a :: body).
    rewrite bool_decide_eq_false_2.
    2:{ intros E. rewrite E in Hspecial. vm_compute in Hspecial. discriminate. }
    unfold URL.is_special. cbn [URL.scheme]. rewrite Hspecial.
    destruct rest as [|c rest']; [done|].
    destruct (decide (c = 47%N)) as [->|Hc]; [by destruct (Hrest rest')|].
    destruct c as [|p]; [done|].
    repeat (destruct p as [p|p|]; try done). }
  split.
  - rewrite validateEnvValue_url. cbn [JS.ToString]. rewrite Hparse.
    destruct value; [vm_compute in Hin; discriminate|].
    by rewrite bool_decide_eq_true_2.
  - unfold URL.new. rewrite Hparse. by eexists.
Qed.

End ValidateEnvValueProperties.

(** C7: for each of the kinds number, boolean, url, email and string, an
    absent or empty value is not valid. *)
Theorem absent_value_invalid
    (host_parser : list N -> bool -> option URL.host)
    (name value : option (list N)) (kind : list N) :
  kind ∈ kinds ->
  value = None \/ value = Some [] ->
  validateEnvValue host_parser name value (Some kind) = Normal false.
Proof.
  intros _ Hv. apply validateEnvValue_falsy. by apply truthy_false.
Qed.

Lemma absent_value_invalid_witness :
  validateEnvValue no_host None (Some []) (Some (lit "email")) = Normal false.
Proof.
  apply (absent_value_invalid no_host None (Some []) (lit "email")).
  - unfold kinds. do 3 apply list_elem_of_further. apply list_elem_of_here.
  - right. reflexivity.
Defined.

(** C9: for a kind other than number, boolean, url and email, known or
    not, [validateEnvValue] does what it does for the string kind: it
    returns true exactly when the value is a non-empty string, and false
    otherwise. *)
Theorem other_kinds_as_string
    (host_parser : list N -> bool -> option URL.host)
    (name value : option (list N)) (kind : list N) :
  kind ∉ [lit "number"; lit "boolean"; lit "url"; lit "email"] ->
  validateEnvValue host_parser name value (Some kind)
  = validateEnvValue host_parser name value (Some (lit "string"))
  /\ exists b,
       validateEnvValue host_parser name value (Some kind) = Normal b
       /\ (b = true <-> exists s, value = Some s /\ s <> []).
Proof.
  intros Hk. rewrite (validateEnvValue_other _ _ _ kind) by done. split.
  - rewrite validateEnvValue_other; [done|].
    intros H. repeat (apply elem_of_cons in H as [H|H];
      [vm_compute in H; discriminate|]). by apply elem_of_nil in H.
  - exists (JS.truthy value). split; [done | apply truthy_true].
Qed.

Lemma other_kinds_as_string_witness :
  validateEnvValue no_host None (Some (lit "x")) (Some (lit "json"))
  = validateEnvValue no_host None (Some (lit "x")) (Some (lit "string"))
  /\ exists b,
       validateEnvValue no_host None (Some (lit "x")) (Some (lit "json")) = Normal b
       /\ (b = true <-> exists s, Some (lit "x") = Some s /\ s <> []).
Proof.
  apply (other_kinds_as_string no_host None (Some (lit "x")) (lit "json")).
  intros H. repeat (apply elem_of_cons in H as [H|H];
    [vm_compute in H; discriminate|]). by apply elem_of_nil in H.
Defined.

(** C5, as stated, fails: "mailto:x" is accepted as a URL, and the URL it
    parses to has a scheme and no authority (its host is null). *)
Lemma url_kind_counterexample : accepted_without_authority (lit "mailto:x").
Proof.
  intros hp. split; [vm_compute; reflexivity|].
  eexists. split; [vm_compute; reflexivity | reflexivity].
Qed.

(** * Further properties *)

(** ** Regular expressions: the matcher decides the language *)

Lemma nullable_spec r : JS.nullable r = true <-> matches r [].
Proof.
  split.
  - induction r as [| |p|r1 IH1 r2 IH2|r1 IH1 r2 IH2|r IH]; simpl; intros H;
      try discriminate.
    + constructor.
    + apply andb_true_iff in H as [H1 H2].
      change (@nil N) with (@nil N ++ []). constructor; auto.
    + apply orb_true_iff in H as [H|H];
        [apply matches_alt_l | apply matches_alt_r]; auto.
    + constructor.
  - intros H. remember [] as s eqn:Hs.
    induction H as [|p c Hp|r1 r2 s1 s2 H1 IH1 H2 IH2|r1 r2 s H IH|r1 r2 s H IH
                   | r | r s1 s2 H1 IH1 H2 IH2]; simpl; try done.
    + apply app_eq_nil in Hs as [-> ->]. by rewrite IH1, IH2.
    + by rewrite IH.
    + rewrite IH by done. apply orb_true_r.
Qed.

Lemma matches_cons_deriv r s' :
  matches r s' -> forall c s, s' = c :: s -> matches (JS.deriv c r) s.
Proof.
  induction 1 as [|p c' Hp|r1 r2 s1 s2 H1 IH1 H2 IH2|r1 r2 s0 H IH|r1 r2 s0 H IH
                 | r | r s1 s2 H1 IH1 H2 IH2]; intros c s Hs; simpl; try done.
  - injection Hs as -> <-. rewrite Hp. constructor.
  - destruct s1 as [|c1 s1]; simpl in Hs.
    + subst s2. apply nullable_spec in H1. rewrite H1.
      apply matches_alt_r. by apply IH2.
    + injection Hs as -> <-.
      assert (Hd : matches (JS.RSeq (JS.deriv c r1) r2) (s1 ++ s2))
        by (constructor; [by apply IH1 | done]).
      destruct (JS.nullable r1); [by apply matches_alt_l | done].
  - apply matches_alt_l. by apply IH.
  - apply matches_alt_r. by apply IH.
  - destruct s1 as [|c1 s1]; simpl in Hs.
    + by apply IH2.
    + injection Hs as -> <-. constructor; [by apply IH1 | done].
Qed.

Lemma matches_deriv_cons c r : forall s, matches (JS.deriv c r) s -> matches r (c :: s).
Proof.
  induction r as [| |p|r1 IH1 r2 IH2|r1 IH1 r2 IH2|r IH]; simpl; intros s H.
  - inversion H.
  - inversion H.
  - destruct (p c) eqn:Hp; inversion H; subst. by constructor.
  - assert (Hseq : forall s, matches (JS.RSeq (JS.deriv c r1) r2) s ->
                             matches (JS.RSeq r1 r2) (c :: s)).
    { intros s0 H0. inversion H0; subst.
      change (c :: s1 ++ s2) with ((c :: s1) ++ s2). constructor; auto. }
    destruct (JS.nullable r1) eqn:Hn; [|by apply Hseq].
    inversion H; subst; [by apply Hseq|].
    change (c :: s) with ([] ++ c :: s).
    constructor; [by apply nullable_spec | auto].
  - inversion H; subst; [apply matches_alt_l | apply matches_alt_r]; auto.
  - inversion H; subst.
    change (c :: s1 ++ s2) with ((c :: s1) ++ s2). constructor; auto.
Qed.

(** [/^r$/.test(s)] is true exactly when [s] is in the language of [r]. *)
Lemma test_spec r s : JS.test r s = true <-> matches r s.
Proof.
  revert r. induction s as [|c s IH]; intros r; simpl.
  - apply nullable_spec.
  - rewrite IH. split.
    + apply matches_deriv_cons.
    + intros H. by apply (matches_cons_deriv r (c :: s)).
Qed.

Lemma matches_class_iff p s :
  matches (JS.RClass p) s <-> exists c, s = [c] /\ p c = true.
Proof.
  split.
  - intros H. inversion H; subst. by eexists.
  - intros (c & -> & Hp). by constructor.
Qed.

Lemma matches_star_class p s :
  matches (JS.RStar (JS.RClass p)) s <-> Forall (fun c => p c = true) s.
Proof.
  split.
  - intros H. remember (JS.RStar (JS.RClass p)) as r eqn:Hr.
    induction H as [| | | | | r |r s1 s2 H1 IH1 H2 IH2]; try discriminate.
    + constructor.
    + injection Hr as ->. apply Forall_app. split; [|by apply IH2].
      apply matches_class_iff in H1 as (c & -> & Hp). by repeat constructor.
  - induction 1 as [|c s Hp _ IH]; [constructor|].
    change (c :: s) with ([c] ++ s). constructor; [by constructor | done].
Qed.

Lemma matches_plus_class p s :
  matches (JS.RPlus (JS.RClass p)) s <-> s <> [] /\ Forall (fun c => p c = true) s.
Proof.
  unfold JS.RPlus. split.
  - intros H. inversion H as [| |r1 r2 s1 s2 H1 H2| | | |]; subst.
    apply matches_class_iff in H1 as (c & -> & Hp).
    apply matches_star_class in H2. split; [done | by constructor].
  - intros [Hne H]. destruct H as [|c s Hp Hs]; [done|].
    change (c :: s) with ([c] ++ s).
    constructor; [by constructor | by apply matches_star_class].
Qed.

Lemma matches_chr a s : matches (JS.chr a) s <-> s = [a].
Proof.
  unfold JS.chr. rewrite matches_class_iff. split.
  - intros (c & -> & ->%N.eqb_eq). done.
  - intros ->. exists a. split; [done | apply N.eqb_refl].
Qed.

Lemma matches_seq_iff r1 r2 s :
  matches (JS.RSeq r1 r2) s <->
  exists s1 s2, s = s1 ++ s2 /\ matches r1 s1 /\ matches r2 s2.
Proof.
  split.
  - intros H. inversion H; subst. by eexists _, _.
  - intros (s1 & s2 & -> & H1 & H2). by constructor.
Qed.

Lemma chat_id_pattern_shape s :
  JS.test chat_id_pattern s = true <-> chat_id_shape s.
Proof.
  rewrite test_spec. unfold chat_id_pattern, chat_id_shape, JS.digit.
  rewrite matches_seq_iff. split.
  - intros (s1 & s2 & -> & H1 & H2).
    apply matches_plus_class in H2 as [Hne Hd]. exists s2.
    split; [done|]. split; [done|].
    unfold JS.ROpt in H1. inversion H1 as [| | |r1 r2 s0 Ha|r1 r2 s0 Ha| |]; subst.
    + apply matches_chr in Ha as ->. by right.
    + inversion Ha; subst. by left.
  - intros (ds & Hne & Hd & [-> | ->]).
    + exists [], ds. split; [done|]. split.
      * apply matches_alt_r. constructor.
      * by apply matches_plus_class.
    + exists [45%N], ds. split; [done|]. split.
      * apply matches_alt_l. by apply matches_chr.
      * by apply matches_plus_class.
Qed.

Lemma email_pattern_shape s :
  JS.test email_pattern s = true <-> email_shape s.
Proof.
  rewrite test_spec. unfold email_pattern, email_shape, JS.not_space_at.
  fold email_char.
  split.
  - intros (a & s1 & -> & Ha & H1)%matches_seq_iff.
    apply matches_seq_iff in H1 as (at_ & s2 & -> & Hat & H2).
    apply matches_seq_iff in H2 as (b & s3 & -> & Hb & H3).
    apply matches_seq_iff in H3 as (dot & c & -> & Hdot & Hc).
    apply matches_chr in Hat as ->. apply matches_chr in Hdot as ->.
    apply (matches_plus_class email_char) in Ha as [? ?].
    apply (matches_plus_class email_char) in Hb as [? ?].
    apply (matches_plus_class email_char) in Hc as [? ?].
    by exists a, b, c.
  - intros (a & b & c & -> & Ha & Hb & Hc & Fa & Fb & Fc).
    apply matches_seq_iff. exists a, (64%N :: b ++ 46%N :: c).
    split; [done|]. split; [by apply (matches_plus_class email_char)|].
    apply matches_seq_iff. exists [64%N], (b ++ 46%N :: c).
    split; [done|]. split; [by apply matches_chr|].
    apply matches_seq_iff. exists b, (46%N :: c).
    split; [done|]. split; [by apply (matches_plus_class email_char)|].
    apply matches_seq_iff. exists [46%N], c.
    split; [done|]. split; [by apply matches_chr|].
    by apply (matches_plus_class email_char).
Qed.

(** ** Decimal numerals *)

Lemma radix_prefix_uint d : JS.radix_prefix 10 (uint_codes d) = uint_values d.
Proof.
  unfold uint_values. induction d; simpl; [done | by rewrite IHd ..].
Qed.

Lemma mathInt_uint_acc d (acc : positive) :
  fold_left (fun a x => a * 10 + x) (uint_values d) (Z.pos acc)
  = Z.pos (Pos.of_uint_acc d acc).
Proof.
  revert acc. unfold uint_values.
  induction d; intros acc; simpl; [done | rewrite <- IHd; f_equal; lia ..].
Qed.

Lemma mathInt_uint d :
  JS.mathInt 10 (uint_values d) = Z.of_N (Pos.of_uint d).
Proof.
  unfold JS.mathInt, uint_values.
  induction d; simpl; [done | exact IHd | apply (mathInt_uint_acc d) ..].
Qed.

Lemma to_uint_not_nil n : N.to_uint n <> Decimal.Nil.
Proof.
  intros H. pose proof (DecimalN.Unsigned.of_to n) as E.
  rewrite H in E. simpl in E. subst n. discriminate H.
Qed.

Lemma trimStart_head c s :
  JS.isWhiteSpace c = false -> JS.trimStart (c :: s) = c :: s.
Proof. intros H. cbn [JS.trimStart]. by rewrite H. Qed.

Lemma parseInt_uint d :
  d <> Decimal.Nil ->
  JS.parseInt (Some (uint_codes d)) =
  match JS.radix_prefix 10 (uint_codes d) with
  | [] => JS.NaN
  | ds => JS.Int (1 * JS.mathInt 10 ds)
  end.
Proof.
  intros Hnil. unfold JS.parseInt. cbn [JS.ToString].
  destruct d as [|d|d|d|d|d|d|d|d|d|d]; try done;
    cbn [uint_codes]; rewrite trimStart_head by reflexivity.
  all: try (cbv beta iota zeta; reflexivity).
  destruct d as [|d|d|d|d|d|d|d|d|d|d]; cbn [uint_codes];
    cbv beta iota zeta; reflexivity.
Qed.

(** [parseInt] reads a decimal numeral as the number it writes. *)
Lemma parseInt_numeral n : JS.parseInt (Some (numeral n)) = JS.Int (Z.of_N n).
Proof.
  unfold numeral. rewrite parseInt_uint by apply to_uint_not_nil.
  rewrite radix_prefix_uint.
  rewrite <- (DecimalN.Unsigned.of_to n) at 2.
  unfold N.of_uint. rewrite <- mathInt_uint.
  pose proof (to_uint_not_nil n) as Hnil.
  destruct (N.to_uint n); [done|..];
    unfold uint_values; cbn [uint_codes fmap list_fmap];
    by rewrite Z.mul_1_l.
Qed.

(** ** The warnings, one by one *)

Lemma elem_of_if_singleton {A} (c : bool) (x m : A) :
  x ∈ (if c then [m] else []) <-> x = m /\ c = true.
Proof.
  destruct c.
  - rewrite list_elem_of_singleton. split; [by intros -> | by intros [-> _]].
  - split; [by intros ?%elem_of_nil | by intros [_ ?]].
Qed.

Lemma msg_origin_head t : exists r, msg_origin t = 73%N :: r.
Proof. unfold msg_origin. eexists. reflexivity. Qed.

Lemma msg_origin_inj t t' : msg_origin t = msg_origin t' -> t = t'.
Proof.
  unfold msg_origin. intros H.
  apply app_inv_head in H. by apply app_inv_tail in H.
Qed.

(** Every warning, with the test that records it. *)
Lemma warnings_elem env m :
  m ∈ warnings (findings env) <->
  (m = msg_bot_token
   /\ opt_includes (env !! lit "TELEGRAM_BOT_TOKEN") (lit "your_bot_token") = true)
  \/ (m = msg_port /\ port_invalid env = true)
  \/ (m = msg_window
      /\ JS.truthy (env !! lit "RATE_LIMIT_WINDOW_MS")
         && (JS.isNaN (JS.parseInt (env !! lit "RATE_LIMIT_WINDOW_MS"))
             || JS.lt (JS.parseInt (env !! lit "RATE_LIMIT_WINDOW_MS")) 1000) = true)
  \/ (m = msg_max_requests
      /\ JS.truthy (env !! lit "RATE_LIMIT_MAX_REQUESTS")
         && (JS.isNaN (JS.parseInt (env !! lit "RATE_LIMIT_MAX_REQUESTS"))
             || JS.lt (JS.parseInt (env !! lit "RATE_LIMIT_MAX_REQUESTS")) 1) = true)
  \/ (m = msg_chat_id
      /\ JS.truthy (env !! lit "TELEGRAM_CHAT_ID")
         && negb (JS.test chat_id_pattern (JS.ToString (env !! lit "TELEGRAM_CHAT_ID")))
         = true)
  \/ (JS.truthy (env !! lit "ALLOWED_ORIGINS") = true
      /\ exists origin,
           origin ∈ JS.split (JS.string_of (env !! lit "ALLOWED_ORIGINS")) 44
           /\ origin_invalid origin = true
           /\ m = msg_origin (JS.trim origin)).
Proof.
  rewrite findings_warnings. unfold warnings_before_port, warnings_after_port.
  cbv zeta. rewrite !elem_of_app, !elem_of_if_singleton.
  assert (Ho : m ∈ (if JS.truthy (env !! lit "ALLOWED_ORIGINS")
                    then (fun origin => msg_origin (JS.trim origin))
                         <$> filter (fun origin => origin_invalid origin = true)
                               (JS.split (JS.string_of (env !! lit "ALLOWED_ORIGINS")) 44)
                    else [])
               <-> JS.truthy (env !! lit "ALLOWED_ORIGINS") = true
                   /\ exists origin,
                        origin ∈ JS.split (JS.string_of (env !! lit "ALLOWED_ORIGINS")) 44
                        /\ origin_invalid origin = true
                        /\ m = msg_origin (JS.trim origin)).
  { destruct (JS.truthy (env !! lit "ALLOWED_ORIGINS")).
    - rewrite list_elem_of_fmap. split.
      + intros (o & -> & [Hi Ho]%list_elem_of_filter). split; [done|]. by exists o.
      + intros (_ & o & Ho & Hi & ->). exists o. split; [done|].
        by apply list_elem_of_filter.
    - split; [by intros ?%elem_of_nil | by intros [? _]]. }
  rewrite Ho. tauto.
Qed.

Ltac other_message H :=
  exfalso;
  lazymatch type of H with
  | _ /\ _ => destruct H as [H _]
  | _ => idtac
  end;
  lazymatch type of H with
  | _ = msg_origin ?t =>
      let r := fresh "r" in
      let Hr := fresh "Hr" in
      destruct (msg_origin_head t) as [r Hr]; rewrite Hr in H;
      vm_compute in H; discriminate
  | _ => vm_compute in H; discriminate
  end.

Lemma opt_includes_spec v p :
  opt_includes v p = true <-> exists s, v = Some s /\ substring p s.
Proof.
  destruct v as [s|]; simpl.
  - rewrite includes_spec. unfold substring. split.
    + intros H. by exists s.
    + by intros (? & [= <-] & H).
  - split; [done | by intros (? & ? & _)].
Qed.

Lemma bot_token_warning_iff env :
  msg_bot_token ∈ warnings (findings env) <->
  opt_includes (env !! lit "TELEGRAM_BOT_TOKEN") (lit "your_bot_token") = true.
Proof.
  rewrite warnings_elem. split.
  - intros [[_ H]|[H|[H|[H|[H|(_ & o & _ & _ & H)]]]]]; [done|other_message H ..].
  - intros H. by left.
Qed.

Lemma window_warning_iff env :
  msg_window ∈ warnings (findings env) <->
  JS.truthy (env !! lit "RATE_LIMIT_WINDOW_MS")
  && (JS.isNaN (JS.parseInt (env !! lit "RATE_LIMIT_WINDOW_MS"))
      || JS.lt (JS.parseInt (env !! lit "RATE_LIMIT_WINDOW_MS")) 1000) = true.
Proof.
  rewrite warnings_elem. split.
  - intros [H|[H|[[_ H]|[H|[H|(_ & o & _ & _ & H)]]]]]; [| |done| | |];
      other_message H.
  - intros H. right. right. by left.
Qed.

Lemma max_requests_warning_iff env :
  msg_max_requests ∈ warnings (findings env) <->
  JS.truthy (env !! lit "RATE_LIMIT_MAX_REQUESTS")
  && (JS.isNaN (JS.parseInt (env !! lit "RATE_LIMIT_MAX_REQUESTS"))
      || JS.lt (JS.parseInt (env !! lit "RATE_LIMIT_MAX_REQUESTS")) 1) = true.
Proof.
  rewrite warnings_elem. split.
  - intros [H|[H|[H|[[_ H]|[H|(_ & o & _ & _ & H)]]]]]; [| | |done| |];
      other_message H.
  - intros H. right. right. right. by left.
Qed.

Lemma chat_id_warning_iff env :
  msg_chat_id ∈ warnings (findings env) <->
  JS.truthy (env !! lit "TELEGRAM_CHAT_ID")
  && negb (JS.test chat_id_pattern (JS.ToString (env !! lit "TELEGRAM_CHAT_ID")))
  = true.
Proof.
  rewrite warnings_elem. split.
  - intros [H|[H|[H|[H|[[_ H]|(_ & o & _ & _ & H)]]]]]; [| | | |done|];
      other_message H.
  - intros H. do 4 right. by left.
Qed.

Lemma origin_warning_iff env t :
  msg_origin t ∈ warnings (findings env) <->
  JS.truthy (env !! lit "ALLOWED_ORIGINS") = true
  /\ exists origin,
       origin ∈ JS.split (JS.string_of (env !! lit "ALLOWED_ORIGINS")) 44
       /\ origin_invalid origin = true /\ t = JS.trim origin.
Proof.
  rewrite warnings_elem. split.
  - intros [H|[H|[H|[H|[H|(Ht & o & Hi & Ho & H)]]]]].
    1-5: destruct H as [H _]; symmetry in H; other_message H.
    split; [done|]. exists o. split; [done|]. split; [done|].
    by apply msg_origin_inj.
  - intros (Ht & o & Hi & Ho & ->). do 5 right. split; [done|]. by exists o.
Qed.

(** ** Splitting and joining *)

Lemma split_from_no_sep sep cur p :
  sep ∉ p -> JS.split_from sep cur p = [cur ++ p].
Proof.
  revert cur. induction p as [|c p IH]; intros cur Hp; simpl.
  - by rewrite app_nil_r.
  - apply not_elem_of_cons in Hp as [Hc Hp].
    rewrite (proj2 (N.eqb_neq c sep)) by done.
    rewrite IH by done. by rewrite <- app_assoc.
Qed.

Lemma split_from_piece sep cur p rest :
  sep ∉ p ->
  JS.split_from sep cur (p ++ sep :: rest)
  = (cur ++ p) :: JS.split_from sep [] rest.
Proof.
  revert cur. induction p as [|c p IH]; intros cur Hp; simpl.
  - by rewrite N.eqb_refl, app_nil_r.
  - apply not_elem_of_cons in Hp as [Hc Hp].
    rewrite (proj2 (N.eqb_neq c sep)) by done.
    rewrite IH by done. by rewrite <- app_assoc.
Qed.

(** Splitting the join of pieces that hold no separator gives the pieces
    back. *)
Lemma split_join sep pieces :
  pieces <> [] -> Forall (fun p => sep ∉ p) pieces ->
  JS.split (join sep pieces) sep = pieces.
Proof.
  unfold JS.split. intros Hne H. induction H as [|p ps Hp Hps IH]; [done|].
  destruct ps as [|q ps].
  - simpl. by rewrite split_from_no_sep.
  - change (join sep (p :: q :: ps)) with (p ++ sep :: join sep (q :: ps)).
    rewrite split_from_piece by done. by rewrite IH.
Qed.

(** Joining the pieces of a split gives the string back, and no piece
    holds the separator. *)
Lemma join_split_from sep cur s :
  join sep (JS.split_from sep cur s) = cur ++ s
  /\ (sep ∉ cur -> Forall (fun p => sep ∉ p) (JS.split_from sep cur s)).
Proof.
  revert cur. induction s as [|c s IH]; intros cur; simpl.
  - rewrite app_nil_r. split; [done | by repeat constructor].
  - destruct (c =? sep)%N eqn:Hc.
    + apply N.eqb_eq in Hc as ->. destruct (IH []) as [IH1 IH2].
      split.
      * destruct (JS.split_from sep [] s) as [|q qs] eqn:Hq.
        { destruct s; simpl in Hq; [done | by destruct (_ =? _)%N]. }
        change (join sep (cur :: q :: qs)) with (cur ++ sep :: join sep (q :: qs)).
        by rewrite IH1.
      * intros Hcur. constructor; [done|]. apply IH2. by intros ?%elem_of_nil.
    + apply N.eqb_neq in Hc. destruct (IH (cur ++ [c])) as [IH1 IH2].
      split; [by rewrite IH1, <- app_assoc|].
      intros Hcur. apply IH2. intros [H|H]%elem_of_app; [done|].
      by apply list_elem_of_singleton in H.
Qed.

Lemma join_split sep s : join sep (JS.split s sep) = s.
Proof. unfold JS.split. by destruct (join_split_from sep [] s) as [-> _]. Qed.

Lemma split_no_sep sep s : Forall (fun p => sep ∉ p) (JS.split s sep).
Proof.
  unfold JS.split. destruct (join_split_from sep [] s) as [_ H].
  apply H. by intros ?%elem_of_nil.
Qed.

Lemma origin_invalid_spec origin :
  origin_invalid origin = true <->
  JS.trim origin <> []
  /\ ~ (exists r, JS.trim origin = lit "http://" ++ r)
  /\ ~ (exists r, JS.trim origin = lit "https://" ++ r).
Proof.
  unfold origin_invalid. cbv zeta.
  rewrite !andb_true_iff, !negb_true_iff, <- !not_true_iff_false.
  rewrite !startsWith_spec. rewrite truthy_true. split.
  - intros [[(s & [= <-] & Hs) H1] H2]. done.
  - intros (Hs & H1 & H2). split; [split|]; try done. by eexists.
Qed.

(** ** The Critical findings *)

Lemma critical_elem env m :
  m ∈ critical (findings env) <->
  (m = msg_jwt_short
   /\ JS.truthy (env !! lit "JWT_SECRET") = true
   /\ (Z.of_nat (length (JS.string_of (env !! lit "JWT_SECRET"))) <? 32) = true)
  \/ (m = msg_jwt_default
      /\ JS.truthy (env !! lit "JWT_SECRET") = true
      /\ env !! lit "JWT_SECRET" = Some (lit "play-kids-secret-key"))
  \/ (m = msg_jwt_example
      /\ opt_includes (env !! lit "JWT_SECRET") (lit "your_super_secret") = true).
Proof.
  rewrite findings_critical. unfold jwt_critical.
  rewrite elem_of_app, elem_of_if_singleton.
  destruct (JS.truthy (env !! lit "JWT_SECRET")).
  - rewrite elem_of_app, !elem_of_if_singleton, bool_decide_eq_true. tauto.
  - rewrite elem_of_nil. split; [tauto|].
    intros [(_ & ? & _)|[(_ & ? & _)|?]]; [done..|by right].
Qed.

Lemma default_secret_short : (length (lit "play-kids-secret-key") < 32)%nat.
Proof. vm_compute. lia. Qed.

(** X1: the Critical list is empty exactly when JWT_SECRET is absent or
    empty, or has at least 32 code units and does not contain
    "your_super_secret"; the test against the default secret adds nothing
    to this, the default secret being shorter than 32. *)
Theorem critical_empty_iff (env : gmap (list N) (list N)) :
  critical (findings env) = [] <->
  absent env (lit "JWT_SECRET")
  \/ exists secret, env !! lit "JWT_SECRET" = Some secret
                    /\ (32 <= length secret)%nat
                    /\ ~ substring (lit "your_super_secret") secret.
Proof.
  split.
  - intros Hnil.
    assert (Hno : forall m, m ∉ critical (findings env))
      by (intros m; rewrite Hnil; apply not_elem_of_nil).
    destruct (env !! lit "JWT_SECRET") as [[|c s]|] eqn:Hs;
      [left; by right | | left; by left].
    right. exists (c :: s). split; [done|]. split.
    + destruct (decide (32 <= length (c :: s))%nat) as [|Hlt]; [done|].
      destruct (Hno msg_jwt_short). apply critical_elem. left.
      rewrite Hs. split; [done|]. split; [done|].
      unfold JS.string_of. cbn [from_option id]. lia.
    + intros Hsub. destruct (Hno msg_jwt_example). apply critical_elem.
      right. right. split; [done|]. apply opt_includes_spec.
      exists (c :: s). by rewrite Hs.
  - intros [Habs | (secret & Hs & Hlen & Hsub)].
    + rewrite findings_critical. unfold jwt_critical.
      apply absent_truthy in Habs as Ht. rewrite Ht.
      destruct Habs as [-> | ->]; reflexivity.
    + apply (jwt_critical_nil env secret); [done | lia | | by apply not_substring_includes].
      apply bool_decide_eq_false. intros [= ->].
      pose proof default_secret_short. lia.
Qed.

(** X2: each Critical finding is recorded exactly on its condition: the
    length finding for a non-empty secret shorter than 32 code units, the
    default finding for the secret 'play-kids-secret-key', the example
    finding for a secret that contains "your_super_secret".  The default
    finding never comes without the length finding, and the findings keep
    this order. *)
Theorem critical_findings_spec (env : gmap (list N) (list N)) :
  (msg_jwt_short ∈ critical (findings env) <->
   exists secret, env !! lit "JWT_SECRET" = Some secret
                  /\ secret <> [] /\ (length secret < 32)%nat)
  /\ (msg_jwt_default ∈ critical (findings env) <->
      env !! lit "JWT_SECRET" = Some (lit "play-kids-secret-key"))
  /\ (msg_jwt_example ∈ critical (findings env) <->
      exists secret, env !! lit "JWT_SECRET" = Some secret
                     /\ substring (lit "your_super_secret") secret)
  /\ (msg_jwt_default ∈ critical (findings env) ->
      msg_jwt_short ∈ critical (findings env))
  /\ sublist (critical (findings env))
       [msg_jwt_short; msg_jwt_default; msg_jwt_example].
Proof.
  assert (Hshort : msg_jwt_short ∈ critical (findings env) <->
                   exists secret, env !! lit "JWT_SECRET" = Some secret
                                  /\ secret <> [] /\ (length secret < 32)%nat).
  { rewrite critical_elem, truthy_true. split.
    - intros [(_ & (s & Hs & Hne) & Hlen)|[[H _]|[H _]]];
        [|vm_compute in H; discriminate ..].
      exists s. rewrite Hs in Hlen. unfold JS.string_of in Hlen.
      cbn [from_option id] in Hlen. split; [done|]. split; [done|lia].
    - intros (s & Hs & Hne & Hlen). left. split; [done|].
      split; [by exists s|]. rewrite Hs. unfold JS.string_of.
      cbn [from_option id]. lia. }
  assert (Hdef : msg_jwt_default ∈ critical (findings env) <->
                 env !! lit "JWT_SECRET" = Some (lit "play-kids-secret-key")).
  { rewrite critical_elem. split.
    - intros [[H _]|[(_ & _ & H)|[H _]]]; [vm_compute in H; discriminate|done|
                                           vm_compute in H; discriminate].
    - intros H. right. left. split; [done|]. split; [by rewrite H|done]. }
  split; [exact Hshort|]. split; [exact Hdef|]. split; [|split].
  - rewrite critical_elem, opt_includes_spec. split.
    + intros [[H _]|[[H _]|[_ H]]]; [vm_compute in H; discriminate ..|done].
    + intros H. right. by right.
  - rewrite Hdef, Hshort. intros H. exists (lit "play-kids-secret-key").
    split; [done|]. split; [done | apply default_secret_short].
  - rewrite findings_critical. unfold jwt_critical.
    repeat match goal with
           | |- context [if ?c then _ else _] => destruct c
           end;
      cbn [app];
      repeat first [ apply sublist_nil | apply sublist_skip | apply sublist_cons ].
Qed.

(** ** What the outcome depends on *)

Lemma filter_absent_ext env1 env2 (names : list (list N)) :
  (forall name, name ∈ names -> env1 !! name = env2 !! name) ->
  filter (absent env1) names = filter (absent env2) names.
Proof.
  induction names as [|name names IH]; intros H; [done|].
  rewrite !filter_cons.
  assert (Hn : env1 !! name = env2 !! name) by (apply H; constructor).
  rewrite IH by (intros n Hin; apply H; by constructor).
  destruct (decide (absent env1 name)) as [H1|H1],
    (decide (absent env2 name)) as [H2|H2]; try done;
    unfold absent in *; rewrite Hn in *; done.
Qed.

(** X3: the Missing list, the Critical list and the outcome depend on the
    four required settings and NODE_ENV only: two environments that agree
    on these five names halt or proceed alike, whatever their other
    settings hold. *)
Theorem outcome_frame (env1 env2 : gmap (list N) (list N)) :
  (forall name, name ∈ requiredEnvVars ++ [lit "NODE_ENV"] ->
                env1 !! name = env2 !! name) ->
  missing (findings env1) = missing (findings env2)
  /\ critical (findings env1) = critical (findings env2)
  /\ outcome (checkEnvironment env1) = outcome (checkEnvironment env2).
Proof.
  intros H.
  assert (Hport : env1 !! lit "PORT" = env2 !! lit "PORT")
    by (apply H; repeat constructor).
  assert (Hjwt : env1 !! lit "JWT_SECRET" = env2 !! lit "JWT_SECRET")
    by (apply H; repeat constructor).
  assert (Hbot : env1 !! lit "TELEGRAM_BOT_TOKEN" = env2 !! lit "TELEGRAM_BOT_TOKEN")
    by (apply H; repeat constructor).
  assert (Hchat : env1 !! lit "TELEGRAM_CHAT_ID" = env2 !! lit "TELEGRAM_CHAT_ID")
    by (apply H; repeat constructor).
  assert (Hmode : env1 !! lit "NODE_ENV" = env2 !! lit "NODE_ENV")
    by (apply H; repeat constructor).
  assert (Hm : missing (findings env1) = missing (findings env2)).
  { rewrite !findings_missing. apply filter_absent_ext.
    intros name Hin. apply H, elem_of_app. by left. }
  assert (Hc : critical (findings env1) = critical (findings env2)).
  { rewrite !findings_critical. unfold jwt_critical. by rewrite Hjwt. }
  split; [exact Hm|]. split; [exact Hc|].
  unfold checkEnvironment. rewrite !outcome_report, Hm, Hc.
  unfold is_production. by rewrite Hmode.
Qed.

Lemma outcome_frame_witness :
  missing (findings env_valid) = missing (findings env_bad_optional)
  /\ critical (findings env_valid) = critical (findings env_bad_optional)
  /\ outcome (checkEnvironment env_valid)
     = outcome (checkEnvironment env_bad_optional).
Proof.
  apply (outcome_frame env_valid env_bad_optional).
  intros name Hin.
  repeat (apply elem_of_cons in Hin as [->|Hin]; [vm_compute; reflexivity|]).
  by apply elem_of_nil in Hin.
Defined.

(** ** Placeholders and formats *)

(** X4: the bot token warning is recorded exactly when TELEGRAM_BOT_TOKEN
    is set and contains "your_bot_token". *)
Theorem bot_token_warning (env : gmap (list N) (list N)) :
  msg_bot_token ∈ warnings (findings env) <->
  exists token, env !! lit "TELEGRAM_BOT_TOKEN" = Some token
                /\ substring (lit "your_bot_token") token.
Proof. rewrite bot_token_warning_iff. apply opt_includes_spec. Qed.

(** X5: the chat id warning is recorded exactly when TELEGRAM_CHAT_ID is
    set, non-empty, and is not an optional minus sign followed by one or
    more decimal digits. *)
Theorem chat_id_warning (env : gmap (list N) (list N)) :
  msg_chat_id ∈ warnings (findings env) <->
  exists id, env !! lit "TELEGRAM_CHAT_ID" = Some id
             /\ id <> [] /\ ~ chat_id_shape id.
Proof.
  rewrite chat_id_warning_iff, andb_true_iff, negb_true_iff, truthy_true.
  rewrite <- not_true_iff_false. split.
  - intros [(id & Hid & Hne) Hshape]. exists id. split; [done|]. split; [done|].
    rewrite Hid in Hshape. cbn [JS.ToString] in Hshape.
    by rewrite <- chat_id_pattern_shape.
  - intros (id & Hid & Hne & Hshape). split; [by exists id|].
    rewrite Hid. cbn [JS.ToString]. by rewrite chat_id_pattern_shape.
Qed.

Lemma rate_limit_iff (v : option (list N)) (k : Z) :
  JS.truthy v && (JS.isNaN (JS.parseInt v) || JS.lt (JS.parseInt v) k) = true <->
  exists s, v = Some s /\ s <> []
            /\ match JS.parseInt (Some s) with
               | JS.NaN => True
               | JS.Int z => z < k
               end.
Proof.
  rewrite andb_true_iff, truthy_true. split.
  - intros [(s & -> & Hne) H]. exists s. split; [done|]. split; [done|].
    destruct (JS.parseInt (Some s)); simpl in H; [done | lia].
  - intros (s & -> & Hne & H). split; [by exists s|].
    destruct (JS.parseInt (Some s)); simpl; [done | lia].
Qed.

(** X6: a rate limit warning is recorded exactly when its setting is set,
    non-empty, and does not parse as an integer or parses below the
    threshold: 1000 for RATE_LIMIT_WINDOW_MS, 1 for RATE_LIMIT_MAX_REQUESTS.
    Unlike PORT, an unset rate limit setting records no warning. *)
Theorem rate_limit_warnings (env : gmap (list N) (list N)) :
  (msg_window ∈ warnings (findings env) <->
   exists s, env !! lit "RATE_LIMIT_WINDOW_MS" = Some s /\ s <> []
             /\ match JS.parseInt (Some s) with
                | JS.NaN => True
                | JS.Int z => z < 1000
                end)
  /\ (msg_max_requests ∈ warnings (findings env) <->
      exists s, env !! lit "RATE_LIMIT_MAX_REQUESTS" = Some s /\ s <> []
                /\ match JS.parseInt (Some s) with
                   | JS.NaN => True
                   | JS.Int z => z < 1
                   end).
Proof.
  split.
  - rewrite window_warning_iff. apply rate_limit_iff.
  - rewrite max_requests_warning_iff. apply rate_limit_iff.
Qed.

Lemma numeral_not_nil n : numeral n <> [].
Proof.
  unfold numeral. pose proof (to_uint_not_nil n).
  by destruct (N.to_uint n).
Qed.

(** X7: for settings written as decimal numerals: with PORT the numeral
    of [n] the port warning is recorded exactly when [n] is 0 or above
    65535; with RATE_LIMIT_WINDOW_MS the numeral of [n], exactly when [n]
    is below 1000; with RATE_LIMIT_MAX_REQUESTS the numeral of [n], exactly
    when [n] is 0. *)
Theorem decimal_settings (env : gmap (list N) (list N)) (n : N) :
  (env !! lit "PORT" = Some (numeral n) ->
   (msg_port ∈ warnings (findings env) <-> (n < 1 \/ 65535 < n)%N))
  /\ (env !! lit "RATE_LIMIT_WINDOW_MS" = Some (numeral n) ->
      (msg_window ∈ warnings (findings env) <-> (n < 1000)%N))
  /\ (env !! lit "RATE_LIMIT_MAX_REQUESTS" = Some (numeral n) ->
      (msg_max_requests ∈ warnings (findings env) <-> (n < 1)%N)).
Proof.
  split; [|split]; intros Hn.
  - rewrite port_warning_iff, port_invalid_spec, Hn, parseInt_numeral. lia.
  - rewrite window_warning_iff, rate_limit_iff, Hn. split.
    + intros (s & [= <-] & _ & H). rewrite parseInt_numeral in H. lia.
    + intros H. exists (numeral n). split; [done|].
      split; [apply numeral_not_nil|]. rewrite parseInt_numeral. lia.
  - rewrite max_requests_warning_iff, rate_limit_iff, Hn. split.
    + intros (s & [= <-] & _ & H). rewrite parseInt_numeral in H. lia.
    + intros H. exists (numeral n). split; [done|].
      split; [apply numeral_not_nil|]. rewrite parseInt_numeral. lia.
Qed.

Lemma decimal_settings_witness :
  (msg_port ∈ warnings (findings env_bad_optional) <-> (3000 < 1 \/ 65535 < 3000)%N)
  /\ (msg_window ∈ warnings (findings env_bad_optional) <-> (10 < 1000)%N).
Proof.
  split.
  - apply (proj1 (decimal_settings env_bad_optional 3000)).
    vm_compute. reflexivity.
  - apply (proj1 (proj2 (decimal_settings env_bad_optional 10))).
    vm_compute. reflexivity.
Defined.

(** X8: for ALLOWED_ORIGINS a non-empty comma-separated list of origins,
    the warnings about origins name exactly the origins that, once
    trimmed, are not empty and start with neither "http://" nor
    "https://". *)
Theorem origins_warnings (env : gmap (list N) (list N))
    (origins : list (list N)) (t : list N) :
  env !! lit "ALLOWED_ORIGINS" = Some (join 44 origins) ->
  join 44 origins <> [] ->
  Forall (fun origin => 44%N ∉ origin) origins ->
  msg_origin t ∈ warnings (findings env) <->
  exists origin, origin ∈ origins /\ t = JS.trim origin
                 /\ t <> []
                 /\ ~ (exists r, t = lit "http://" ++ r)
                 /\ ~ (exists r, t = lit "https://" ++ r).
Proof.
  intros Henv Hne Hsep.
  assert (Hpieces : origins <> []) by (by intros ->).
  rewrite origin_warning_iff, Henv. unfold JS.string_of. cbn [from_option id].
  rewrite split_join by done. split.
  - intros (_ & o & Hin & Hinv%origin_invalid_spec & ->). by exists o.
  - intros (o & Hin & -> & H). split.
    + apply truthy_true. by eexists.
    + exists o. split; [done|]. split; [by apply origin_invalid_spec | done].
Qed.

Lemma origins_warnings_witness :
  msg_origin (lit "b.example") ∈ warnings (findings env_origins) <->
  exists origin,
    origin ∈ [lit "https://a.example"; lit " b.example "; lit "http://c.example"]
    /\ lit "b.example" = JS.trim origin
    /\ lit "b.example" <> []
    /\ ~ (exists r, lit "b.example" = lit "http://" ++ r)
    /\ ~ (exists r, lit "b.example" = lit "https://" ++ r).
Proof.
  apply (origins_warnings env_origins
           [lit "https://a.example"; lit " b.example "; lit "http://c.example"]).
  - vm_compute. reflexivity.
  - vm_compute. discriminate.
  - repeat constructor; intros H; vm_compute in H;
      repeat (apply elem_of_cons in H as [H|H]; [discriminate|]);
      by apply elem_of_nil in H.
Defined.

(** ** What a run writes *)

Lemma is_development_true env :
  is_development env = true <-> env !! lit "NODE_ENV" = Some (lit "development").
Proof. unfold is_development. by rewrite bool_decide_eq_true. Qed.

Lemma halt_cases env :
  outcome (checkEnvironment env) = Halt ->
  trace (checkEnvironment env)
  = critical_lines (findings env) ++ [ConsoleError line_cannot_start; ProcessExit 1]
  \/ trace (checkEnvironment env)
     = critical_lines (findings env) ++ missing_lines (findings env) ++ [ProcessExit 1].
Proof.
  rewrite trace_checkEnvironment. cbv zeta.
  destruct (nonempty (critical (findings env)) && is_production env);
    [by left|].
  destruct (nonempty (missing (findings env))); [by right | done].
Qed.

(** X9: a run that halts writes to [console.error] only: no warning and no
    acknowledgment is displayed, and its sole other action is
    [process.exit(1)]. *)
Theorem halt_writes_errors_only (env : gmap (list N) (list N)) (e : event) :
  outcome (checkEnvironment env) = Halt ->
  e ∈ trace (checkEnvironment env) ->
  (exists line, e = ConsoleError line) \/ e = ProcessExit 1.
Proof.
  intros Hhalt He.
  assert (Hc : e ∈ critical_lines (findings env) -> exists line, e = ConsoleError line).
  { unfold critical_lines. destruct (nonempty _); [|by intros ?%elem_of_nil].
    intros [->|(c & -> & _)%list_elem_of_fmap]%elem_of_cons; by eexists. }
  destruct (halt_cases env Hhalt) as [Ht|Ht]; rewrite Ht in He.
  - apply elem_of_app in He as [He|He]; [left; auto|].
    apply elem_of_cons in He as [->|He]; [left; by eexists|].
    apply list_elem_of_singleton in He as ->. by right.
  - apply elem_of_app in He as [He|He]; [left; auto|].
    apply elem_of_app in He as [He|He].
    + left. unfold missing_lines in He.
      apply elem_of_cons in He as [->|He]; [by eexists|].
      apply elem_of_app in He as [(v & -> & _)%list_elem_of_fmap|He];
        [by eexists|].
      apply list_elem_of_singleton in He as ->. by eexists.
    + apply list_elem_of_singleton in He as ->. by right.
Qed.

Lemma halt_writes_errors_only_witness :
  (exists line, ConsoleError line_cannot_start = ConsoleError line)
  \/ ConsoleError line_cannot_start = ProcessExit 1.
Proof.
  apply (halt_writes_errors_only env_short_secret (ConsoleError line_cannot_start)).
  - vm_compute. reflexivity.
  - apply (list_elem_of_lookup_2 _ 2). vm_compute. reflexivity.
Defined.

(** X10: in production a Critical finding ends the run before the other
    reports: the run writes the Critical findings and the notice, and
    exits, and the Missing findings, if any, are not displayed. *)
Theorem production_critical_trace (env : gmap (list N) (list N)) :
  critical (findings env) <> [] ->
  env !! lit "NODE_ENV" = Some (lit "production") ->
  trace (checkEnvironment env)
  = ConsoleError line_critical
    :: ((fun c => ConsoleError (item c)) <$> critical (findings env))
    ++ [ConsoleError line_cannot_start; ProcessExit 1].
Proof.
  intros Hc Hp. rewrite trace_checkEnvironment. cbv zeta.
  apply nonempty_true in Hc. apply is_production_true in Hp.
  unfold critical_lines. by rewrite Hc, Hp.
Qed.

Lemma production_critical_trace_witness :
  trace (checkEnvironment env_short_secret)
  = ConsoleError line_critical
    :: ((fun c => ConsoleError (item c)) <$> critical (findings env_short_secret))
    ++ [ConsoleError line_cannot_start; ProcessExit 1].
Proof.
  apply (production_critical_trace env_short_secret).
  - vm_compute. discriminate.
  - vm_compute. reflexivity.
Defined.

(** X11: when a required setting is absent and no Critical finding stops
    a production run, the run writes the Critical findings if any, then the
    heading, the absent required names in their order and the advice, and
    exits with status 1. *)
Theorem missing_report_trace (env : gmap (list N) (list N)) :
  ~ (critical (findings env) <> []
     /\ env !! lit "NODE_ENV" = Some (lit "production")) ->
  (exists name, name ∈ requiredEnvVars /\ absent env name) ->
  trace (checkEnvironment env)
  = critical_lines (findings env)
    ++ ConsoleError line_missing
       :: ((fun v => ConsoleError (item v)) <$> filter (absent env) requiredEnvVars)
    ++ [ConsoleError line_check_env_file; ProcessExit 1].
Proof.
  intros Hc (name & Hreq & Habs).
  rewrite trace_checkEnvironment. cbv zeta.
  assert (Hcp : nonempty (critical (findings env)) && is_production env = false).
  { apply not_true_iff_false. intros [H1 H2]%andb_true_iff. apply Hc.
    split; [by apply nonempty_true | by apply is_production_true]. }
  assert (Hm : nonempty (missing (findings env)) = true).
  { apply nonempty_true. rewrite findings_missing. intros Hnil.
    assert (Hin : name ∈ filter (absent env) requiredEnvVars)
      by (by apply list_elem_of_filter).
    rewrite Hnil in Hin. by apply elem_of_nil in Hin. }
  rewrite Hcp, Hm. unfold trace, missing_lines. cbn [fst].
  rewrite findings_missing. f_equal. cbn [app]. by rewrite <- app_assoc.
Qed.

Lemma missing_report_trace_witness :
  trace (checkEnvironment ∅)
  = critical_lines (findings ∅)
    ++ ConsoleError line_missing
       :: ((fun v => ConsoleError (item v)) <$> filter (absent ∅) requiredEnvVars)
    ++ [ConsoleError line_check_env_file; ProcessExit 1].
Proof.
  apply (missing_report_trace ∅).
  - intros [_ H]. vm_compute in H. discriminate.
  - exists (lit "PORT"). split; [constructor | by left].
Defined.

(** X12: a run that proceeds writes, in this order, the Critical findings
    if any (outside production they do not stop the run), the warnings if
    any, each once and in the order of the checks, the acknowledgment, and
    the informational lines. *)
Theorem proceed_trace (env : gmap (list N) (list N)) :
  outcome (checkEnvironment env) = Proceed ->
  trace (checkEnvironment env)
  = (if nonempty (critical (findings env))
     then ConsoleError line_critical
          :: ((fun c => ConsoleError (item c)) <$> critical (findings env))
     else [])
    ++ (if nonempty (warnings (findings env))
        then ConsoleWarn line_warnings
             :: ((fun w => ConsoleWarn (item w)) <$> warnings (findings env))
        else [])
    ++ ConsoleLog line_validated :: optional_lines env.
Proof.
  rewrite trace_checkEnvironment. cbv zeta.
  destruct (nonempty (critical (findings env)) && is_production env); [done|].
  destruct (nonempty (missing (findings env))); [done|]. intros _.
  reflexivity.
Qed.

Lemma proceed_trace_witness :
  trace (checkEnvironment env_weak_secret_dev)
  = (if nonempty (critical (findings env_weak_secret_dev))
     then ConsoleError line_critical
          :: ((fun c => ConsoleError (item c))
                <$> critical (findings env_weak_secret_dev))
     else [])
    ++ (if nonempty (warnings (findings env_weak_secret_dev))
        then ConsoleWarn line_warnings
             :: ((fun w => ConsoleWarn (item w))
                   <$> warnings (findings env_weak_secret_dev))
        else [])
    ++ ConsoleLog line_validated :: optional_lines env_weak_secret_dev.
Proof.
  apply (proceed_trace env_weak_secret_dev). vm_compute. reflexivity.
Defined.

Lemma item_log_elem env v :
  ConsoleLog (item v) ∈ trace (checkEnvironment env) <->
  outcome (checkEnvironment env) = Proceed
  /\ ConsoleLog (item v) ∈ optional_lines env.
Proof.
  assert (Hc : ConsoleLog (item v) ∉ critical_lines (findings env)).
  { unfold critical_lines. destruct (nonempty _); [|apply not_elem_of_nil].
    intros [H|(c & H & _)%list_elem_of_fmap]%elem_of_cons; discriminate. }
  assert (Hm : ConsoleLog (item v) ∉ missing_lines (findings env)).
  { unfold missing_lines.
    intros [H|[(c & H & _)%list_elem_of_fmap|H]%elem_of_app]%elem_of_cons;
      try discriminate.
    apply list_elem_of_singleton in H. discriminate. }
  assert (Hw : ConsoleLog (item v) ∉ warning_lines (findings env)).
  { unfold warning_lines. destruct (nonempty _); [|apply not_elem_of_nil].
    intros [H|(c & H & _)%list_elem_of_fmap]%elem_of_cons; discriminate. }
  rewrite trace_checkEnvironment. cbv zeta.
  destruct (nonempty (critical (findings env)) && is_production env);
    [|destruct (nonempty (missing (findings env)))];
    unfold trace, outcome; cbn [fst snd].
  - split; [|by intros [? _]].
    intros [H|H]%elem_of_app; [done|].
    repeat (apply elem_of_cons in H as [H|H]; [discriminate|]).
    by apply elem_of_nil in H.
  - split; [|by intros [? _]].
    intros [H|[H|H]%elem_of_app]%elem_of_app; [done..|].
    apply list_elem_of_singleton in H. discriminate.
  - split.
    + intros [H|[H|[H|H]%elem_of_app]%elem_of_app]%elem_of_app; [done..| |done].
      apply list_elem_of_singleton in H. injection H as H.
      vm_compute in H. discriminate.
    + intros [_ H]. rewrite !elem_of_app. by do 3 right.
Qed.

(** X13: the name of an optional setting is listed as not set exactly when
    the run proceeds, NODE_ENV is "development" and the setting is absent
    or empty.  NODE_ENV, itself an optional setting, is therefore never
    listed. *)
Theorem optional_info_lines (env : gmap (list N) (list N)) (v : list N) :
  (ConsoleLog (item v) ∈ trace (checkEnvironment env) <->
   outcome (checkEnvironment env) = Proceed
   /\ env !! lit "NODE_ENV" = Some (lit "development")
   /\ v ∈ optionalEnvVars /\ absent env v)
  /\ ConsoleLog (item (lit "NODE_ENV")) ∉ trace (checkEnvironment env).
Proof.
  assert (Hopt : forall w, ConsoleLog (item w) ∈ optional_lines env <->
              env !! lit "NODE_ENV" = Some (lit "development")
              /\ w ∈ optionalEnvVars /\ absent env w).
  { intros w. unfold optional_lines. cbv zeta.
    rewrite <- is_development_true.
    destruct (is_development env); cbn [andb].
    - destruct (nonempty _) eqn:Hne.
      + rewrite elem_of_cons, list_elem_of_fmap. split.
        * intros [H|(x & Hx & Hin)]; [vm_compute in H; discriminate|].
          injection Hx as Hx. subst x. apply list_elem_of_filter in Hin as [Ht Hin].
          split; [done|]. split; [done | by apply absent_truthy].
        * intros (_ & Hin & Ha). right. exists w. split; [done|].
          apply list_elem_of_filter. split; [by apply absent_truthy | done].
      + apply nonempty_false in Hne. split; [by intros ?%elem_of_nil|].
        intros (_ & Hin & Ha).
        assert (Hw : w ∈ filter (fun v => JS.truthy (env !! v) = false) optionalEnvVars)
          by (apply list_elem_of_filter; split; [by apply absent_truthy | done]).
        rewrite Hne in Hw. by apply elem_of_nil in Hw.
    - split; [by intros ?%elem_of_nil | by intros [? _]]. }
  split.
  - rewrite item_log_elem, Hopt. tauto.
  - rewrite item_log_elem, Hopt.
    intros (_ & Hdev & _ & [Ha|Ha]); rewrite Hdev in Ha;
      [discriminate | vm_compute in Ha; discriminate].
Qed.

(** ** What [parseInt] reads a number from *)

Lemma match_minus {T} (c : N) (r : list N) (a b : T) :
  match c :: r with 45%N :: _ => a | _ => b end = if (c =? 45)%N then a else b.
Proof.
  destruct c as [|p]; [done|].
  repeat (destruct p as [p|p|]; try reflexivity).
Qed.

Lemma match_sign {T} (c : N) (r : list N) (a : list N -> T) (d : T) :
  match c :: r with 43%N :: r' => a r' | 45%N :: r' => a r' | _ => d end
  = if ((c =? 43) || (c =? 45))%N then a r else d.
Proof.
  destruct c as [|p]; [done|].
  repeat (destruct p as [p|p|]; try reflexivity).
Qed.

Lemma match_hex {T} (c x : N) (r : list N) (a : list N -> T) (d : T) :
  match c :: x :: r with
  | 48%N :: 120%N :: r' => a r'
  | 48%N :: 88%N :: r' => a r'
  | _ => d
  end = if ((c =? 48) && ((x =? 120) || (x =? 88)))%N then a r else d.
Proof.
  destruct c as [|p]; [done|].
  repeat (destruct p as [p|p|]; try reflexivity).
  destruct x as [|p]; [done|].
  repeat (destruct p as [p|p|]; try reflexivity).
Qed.

Lemma match_hex_one {T} (c : N) (a : list N -> T) (d : T) :
  match [c] with
  | 48%N :: 120%N :: r' => a r'
  | 48%N :: 88%N :: r' => a r'
  | _ => d
  end = d.
Proof.
  destruct c as [|p]; [done|].
  repeat (destruct p as [p|p|]; try reflexivity).
Qed.

(** [parseInt] on a string that starts with no white space, its pattern
    matches written as tests. *)
Lemma parseInt_cons c r :
  JS.isWhiteSpace c = false ->
  JS.parseInt (Some (c :: r)) =
  let sign := if (c =? 45)%N then -1 else 1 in
  let S1 := if ((c =? 43) || (c =? 45))%N then r else c :: r in
  let '(R, S2) :=
    match S1 with
    | c1 :: x :: r' =>
        if ((c1 =? 48) && ((x =? 120) || (x =? 88)))%N then (16, r') else (10, S1)
    | _ => (10, S1)
    end in
  match JS.radix_prefix R S2 with
  | [] => JS.NaN
  | ds => JS.Int (sign * JS.mathInt R ds)
  end.
Proof.
  intros Hc. unfold JS.parseInt. cbn [JS.ToString].
  rewrite trimStart_head by done. cbv zeta.
  rewrite (match_minus c r), (match_sign c r (fun r' => r')).
  destruct ((c =? 43) || (c =? 45))%N.
  - destruct r as [|c1 [|x r']]; try reflexivity.
    + rewrite (match_hex_one c1 (fun r' => (16, r'))); reflexivity.
    + rewrite (match_hex c1 x r' (fun r' => (16, r')));
        destruct (_ && _); reflexivity.
  - destruct r as [|x r'].
    + rewrite (match_hex_one c (fun r' => (16, r'))); reflexivity.
    + rewrite (match_hex c x r' (fun r' => (16, r')));
        destruct (_ && _); reflexivity.
Qed.

Lemma digit_value_cases R c :
  JS.digit_value R c =
  let z := Z.of_N c in
  if decide (48 <= z <= 57) then (if z - 48 <? R then Some (z - 48) else None)
  else if decide (97 <= z <= 122) then (if z - 87 <? R then Some (z - 87) else None)
  else if decide (65 <= z <= 90) then (if z - 55 <? R then Some (z - 55) else None)
  else None.
Proof.
  unfold JS.digit_value. cbv zeta.
  repeat case_decide;
    repeat match goal with
           | |- context [(?a <=? ?b) && (?c <=? ?d)] =>
               let E := fresh in
               destruct ((a <=? b) && (c <=? d)) eqn:E;
               [apply andb_true_iff in E as [?%Z.leb_le ?%Z.leb_le]
               |apply andb_false_iff in E as [?%Z.leb_gt | ?%Z.leb_gt]]
           end; try reflexivity; lia.
Qed.

Lemma digit_value_10 c : is_Some (JS.digit_value 10 c) <-> is_digit c = true.
Proof.
  rewrite digit_value_cases. cbv zeta. unfold is_digit.
  rewrite andb_true_iff, !N.leb_le.
  repeat case_decide;
    repeat match goal with
           | |- context [?a <? ?b] =>
               let E := fresh in
               destruct (a <? b) eqn:E;
               [apply Z.ltb_lt in E | apply Z.ltb_ge in E]
           end;
    (split; [intros [? ?]; try done; lia | intros ?; try (by eexists); lia]).
Qed.

Lemma digit_value_16 c : is_Some (JS.digit_value 16 c) <-> is_hex_digit c = true.
Proof.
  rewrite digit_value_cases. cbv zeta. unfold is_hex_digit, is_digit.
  rewrite !orb_true_iff, !andb_true_iff, !N.leb_le.
  repeat case_decide;
    repeat match goal with
           | |- context [?a <? ?b] =>
               let E := fresh in
               destruct (a <? b) eqn:E;
               [apply Z.ltb_lt in E | apply Z.ltb_ge in E]
           end;
    (split; [intros [? ?]; try done; lia | intros ?; try (by eexists); lia]).
Qed.

Lemma radix_prefix_nonempty R s :
  JS.radix_prefix R s <> [] <->
  exists d r, s = d :: r /\ is_Some (JS.digit_value R d).
Proof.
  destruct s as [|d r]; simpl.
  - split; [done | by intros (? & ? & ? & _)].
  - destruct (JS.digit_value R d) eqn:E.
    + split; [|done]. intros _. exists d, r. split; [done | by eexists].
    + split; [done|]. intros (? & ? & [= <- <-] & [? ?]). congruence.
Qed.

Lemma isNaN_match (ds : list Z) (sign R : Z) :
  JS.isNaN (match ds with
            | [] => JS.NaN
            | z :: l => JS.Int (sign * JS.mathInt R (z :: l))
            end)
  = false <-> ds <> [].
Proof. by destruct ds. Qed.

Lemma read_number_iff (sign : Z) (S1 : list N) :
  JS.isNaN
    (let '(R, S2) :=
       match S1 with
       | c1 :: x :: r' =>
           if ((c1 =? 48) && ((x =? 120) || (x =? 88)))%N then (16, r') else (10, S1)
       | _ => (10, S1)
       end in
     match JS.radix_prefix R S2 with
     | [] => JS.NaN
     | ds => JS.Int (sign * JS.mathInt R ds)
     end) = false
  <-> starts_numeral S1.
Proof.
  unfold starts_numeral.
  destruct S1 as [|c1 [|x r']].
  - cbn. split; [done|]. intros [(? & ? & ? & ? & _)|(? & ? & ? & _)]; done.
  - cbv beta iota zeta. rewrite (isNaN_match (JS.radix_prefix 10 [c1]) sign 10).
    rewrite radix_prefix_nonempty. split.
    + intros (d & r & [= <- <-] & Hd%digit_value_10). right.
      exists c1, []. split; [done|]. split; [done|].
      by intros (_ & ? & ? & ? & _).
    + intros [(? & ? & ? & ? & _)|(d & r & [= <- <-] & Hd & _)]; [done|].
      exists c1, []. split; [done | by apply digit_value_10].
  - destruct ((c1 =? 48) && ((x =? 120) || (x =? 88)))%N eqn:Hx.
    + cbv beta iota zeta. rewrite (isNaN_match (JS.radix_prefix 16 r') sign 16).
      rewrite radix_prefix_nonempty.
      apply andb_true_iff in Hx as [->%N.eqb_eq Hx].
      apply orb_true_iff in Hx. rewrite !N.eqb_eq in Hx. split.
      * intros (d & r & -> & Hd%digit_value_16). left. by exists x, d, r.
      * intros [(x' & d & r & [= <- ->] & _ & Hd)|(d & r & [= <- <-] & _ & Hn)].
        -- exists d, r. split; [done | by apply digit_value_16].
        -- destruct Hn. split; [done|]. by exists x, r'.
    + cbv beta iota zeta.
      rewrite (isNaN_match (JS.radix_prefix 10 (c1 :: x :: r')) sign 10).
      rewrite radix_prefix_nonempty.
      apply andb_false_iff in Hx. rewrite orb_false_iff, !N.eqb_neq in Hx. split.
      * intros (d & r & [= <- <-] & Hd%digit_value_10). right.
        exists c1, (x :: r'). split; [done|]. split; [done|].
        intros (-> & x' & r & [= <- <-] & Hxx). destruct Hx as [|[? ?]]; [done|].
        by destruct Hxx.
      * intros [(x' & d & r & [= -> <- ->] & Hxx & _)|(d & r & [= <- <-] & Hd & _)].
        -- destruct Hx as [|[? ?]]; [done|]. by destruct Hxx.
        -- exists c1, (x :: r'). split; [done | by apply digit_value_10].
Qed.

Lemma digit_not_space d : is_digit d = true -> JS.isWhiteSpace d = false.
Proof.
  unfold is_digit. intros [?%N.leb_le ?%N.leb_le]%andb_true_iff.
  apply not_true_iff_false. unfold JS.isWhiteSpace.
  rewrite !orb_true_iff, andb_true_iff, !N.eqb_eq, !N.leb_le. lia.
Qed.

Lemma starts_numeral_head body :
  starts_numeral body -> exists d r, body = d :: r /\ is_digit d = true.
Proof.
  intros [(x & d & r & -> & _)|(d & r & -> & Hd & _)]; by eexists _, _.
Qed.

Lemma trimStart_spaces ws s :
  Forall (fun c => JS.isWhiteSpace c = true) ws ->
  JS.trimStart (ws ++ s) = JS.trimStart s.
Proof. induction 1 as [|c ws Hc _ IH]; [done|]. simpl. by rewrite Hc. Qed.

Lemma trimStart_split s :
  exists ws, s = ws ++ JS.trimStart s
             /\ Forall (fun c => JS.isWhiteSpace c = true) ws
             /\ match JS.trimStart s with
                | c :: _ => JS.isWhiteSpace c = false
                | [] => True
                end.
Proof.
  induction s as [|c s (ws & Hs & Hws & Hh)]; [by exists []|].
  simpl. destruct (JS.isWhiteSpace c) eqn:Hc.
  - exists (c :: ws). split; [by rewrite Hs at 1|]. split; [by constructor|done].
  - by exists [].
Qed.

Lemma parseInt_trim s : JS.parseInt (Some s) = JS.parseInt (Some (JS.trimStart s)).
Proof.
  unfold JS.parseInt. cbn [JS.ToString].
  destruct (trimStart_split s) as (ws & _ & _ & Hh).
  destruct (JS.trimStart s) as [|c r] eqn:E; [done|].
  by rewrite trimStart_head.
Qed.

(** [parseInt] gives a number exactly on the strings that start, after
    white space and an optional sign, with a numeral. *)
Lemma parseInt_number_iff s :
  JS.isNaN (JS.parseInt (Some s)) = false <-> has_integer_prefix s.
Proof.
  unfold has_integer_prefix. split.
  - rewrite parseInt_trim.
    destruct (trimStart_split s) as (ws & Hs & Hws & Hh).
    destruct (JS.trimStart s) as [|c r] eqn:E; [done|].
    rewrite parseInt_cons by done. cbv zeta. rewrite read_number_iff.
    destruct ((c =? 43) || (c =? 45))%N eqn:Hc; intros Hn.
    + exists ws, [c], r. split; [done|]. split; [done|]. split; [|done].
      apply orb_true_iff in Hc as [->%N.eqb_eq | ->%N.eqb_eq]; auto.
    + exists ws, [], (c :: r). split; [done|]. split; [done|]. split; [by left|done].
  - intros (ws & sign & body & -> & Hws & Hsign & Hbody).
    rewrite parseInt_trim, trimStart_spaces by done.
    destruct (starts_numeral_head body Hbody) as (d & r & -> & Hd).
    destruct Hsign as [-> | [-> | ->]]; cbn [app].
    + rewrite trimStart_head by (by apply digit_not_space).
      rewrite parseInt_cons by (by apply digit_not_space). cbv zeta.
      assert (Hs : ((d =? 43) || (d =? 45))%N = false).
      { unfold is_digit in Hd. apply andb_true_iff in Hd as [?%N.leb_le ?%N.leb_le].
        apply orb_false_iff. rewrite !N.eqb_neq. lia. }
      rewrite Hs.
      by apply (proj2 (read_number_iff (if (d =? 45)%N then -1 else 1) (d :: r))).
    + rewrite trimStart_head by reflexivity.
      rewrite parseInt_cons by reflexivity.
      by apply (proj2 (read_number_iff 1 (d :: r))).
    + rewrite trimStart_head by reflexivity.
      rewrite parseInt_cons by reflexivity.
      by apply (proj2 (read_number_iff (-1) (d :: r))).
Qed.

(** ** The kinds of validateEnvValue *)

Section Kinds.

Variable host_parser : list N -> bool -> option URL.host.

Lemma validateEnvValue_number name value :
  validateEnvValue host_parser name value (Some (lit "number")) =
  Normal (JS.truthy value && negb (JS.isNaN (JS.parseInt value))).
Proof.
  unfold validateEnvValue. cbn [default from_option id].
  by destruct (JS.truthy value).
Qed.

Lemma validateEnvValue_email name value :
  validateEnvValue host_parser name value (Some (lit "email")) =
  Normal (JS.truthy value && JS.test email_pattern (JS.ToString value)).
Proof.
  unfold validateEnvValue. cbn [default from_option id].
  by destruct (JS.truthy value).
Qed.

Lemma has_integer_prefix_not_nil s : has_integer_prefix s -> s <> [].
Proof.
  intros (ws & sign & body & -> & _ & _ & Hb).
  destruct (starts_numeral_head body Hb) as (d & r & -> & _).
  intros H. apply app_eq_nil in H as [_ H]. by apply app_eq_nil in H as [_ H].
Qed.

Lemma email_shape_not_nil s : email_shape s -> s <> [].
Proof.
  intros (a & b & c & -> & Ha & _). intros H. by apply app_eq_nil in H as [H _].
Qed.

End Kinds.

(** X14: for the email kind [validateEnvValue] returns true exactly when
    the value is a string of the form local@domain.tld, the three parts
    non-empty and free of white space and of [@] (the domain and the rest
    may hold further dots). *)
Theorem email_kind
    (host_parser : list N -> bool -> option URL.host)
    (name value : option (list N)) :
  validateEnvValue host_parser name value (Some (lit "email")) = Normal true <->
  exists s, value = Some s /\ email_shape s.
Proof.
  rewrite validateEnvValue_email. split.
  - intros [= [Ht Hs]%andb_true_iff].
    apply truthy_true in Ht as (s & -> & _). exists s. split; [done|].
    by apply email_pattern_shape.
  - intros (s & -> & Hs). f_equal. apply andb_true_iff. split.
    + apply truthy_true. exists s. split; [done | by apply email_shape_not_nil].
    + by apply email_pattern_shape.
Qed.

(** X15: for the number kind [validateEnvValue] returns true exactly when
    the value is a string that starts, after white space and an optional
    sign, with a decimal digit, or with [0x] or [0X] and a hexadecimal
    digit; what follows the digits is not looked at, and a [0x] with no
    hexadecimal digit after it is not a number.  In particular every
    decimal numeral is accepted. *)
Theorem number_kind
    (host_parser : list N -> bool -> option URL.host)
    (name value : option (list N)) :
  (validateEnvValue host_parser name value (Some (lit "number")) = Normal true <->
   exists s, value = Some s /\ has_integer_prefix s)
  /\ (forall n, validateEnvValue host_parser name (Some (numeral n))
                  (Some (lit "number")) = Normal true).
Proof.
  split.
  - rewrite validateEnvValue_number. split.
    + intros [= [Ht Hs]%andb_true_iff].
      apply truthy_true in Ht as (s & -> & _). exists s. split; [done|].
      apply parseInt_number_iff. by apply negb_true_iff.
    + intros (s & -> & Hs). f_equal. apply andb_true_iff. split.
      * apply truthy_true. exists s.
        split; [done | by apply has_integer_prefix_not_nil].
      * apply negb_true_iff. by apply parseInt_number_iff.
  - intros n. rewrite validateEnvValue_number, parseInt_numeral.
    pose proof (numeral_not_nil n). by destruct (numeral n).
Qed.

(** ** URLs with a special scheme, and ports *)

Section URLInvariant.

Variable host_parser : list N -> bool -> option URL.host.

Lemma after_authority_refl u : after_authority u u.
Proof. split; [done|]. split; [by left|]. intros p Hp. by left. Qed.

Lemma decimal_nonneg ds (acc : Z) :
  Forall (fun c => is_digit c = true) ds -> 0 <= acc ->
  0 <= fold_left (fun a d => a * 10 + (Z.of_N d - 48)) ds acc.
Proof.
  intros H. revert acc. induction H as [|d ds Hd _ IH]; intros acc Hacc; [done|].
  simpl. apply IH. unfold is_digit in Hd.
  apply andb_true_iff in Hd as [?%N.leb_le ?%N.leb_le]. lia.
Qed.

Lemma port_end_spec u buffer input u' :
  Forall (fun c => is_digit c = true) buffer ->
  URL.port_end u buffer input = Some u' ->
  after_authority u u'.
Proof.
  intros Hb. unfold URL.port_end, URL.path_start_state.
  destruct buffer as [|d ds]; [intros [= <-]; apply after_authority_refl|].
  cbv zeta. destruct (65535 <? _) eqn:E; [done|]. apply Z.ltb_ge in E.
  intros [= <-]. split; [done|]. split; [by left|]. cbn [URL.set_port URL.port].
  intros p. case_decide; [done|]. intros [= <-]. right. split; [|done].
  unfold URL.decimal. by apply decimal_nonneg.
Qed.

Lemma port_state_spec u buffer input u' :
  Forall (fun c => is_digit c = true) buffer ->
  URL.port_state u buffer input = Some u' ->
  after_authority u u'.
Proof.
  revert buffer. induction input as [|c input IH]; intros buffer Hb; simpl.
  - by apply port_end_spec.
  - destruct (URL.isASCIIDigit c) eqn:Hc.
    + apply IH. apply Forall_app. split; [done|]. by repeat constructor.
    + destruct (URL.ends_authority u c); [by apply port_end_spec | done].
Qed.

Lemma host_end_spec u buffer input u' :
  URL.host_end host_parser u buffer input = Some u' -> with_host u u'.
Proof.
  unfold URL.host_end, URL.path_start_state.
  destruct (_ && _); [done|]. destruct (host_parser _ _) as [h|]; [|done].
  intros [= <-]. split; [done|]. split; [done|]. intros p Hp. by left.
Qed.

Lemma host_state_spec u inside buffer input u' :
  URL.host_state host_parser u inside buffer input = Some u' -> with_host u u'.
Proof.
  revert inside buffer. induction input as [|c input IH]; intros inside buffer; simpl.
  - apply host_end_spec.
  - destruct (_ && _).
    + destruct (bool_decide _); [done|].
      destruct (host_parser _ _) as [h|]; [|done].
      intros (Hs & Hh & Hp)%port_state_spec; [|constructor].
      split; [done|]. split; [|done].
      destruct Hh as [Hh|Hh]; [by rewrite Hh | done].
    + destruct (URL.ends_authority u c); [apply host_end_spec | apply IH].
Qed.

Lemma authority_state_spec u seen buffer input u' :
  URL.authority_state host_parser u seen buffer input = Some u' -> with_host u u'.
Proof.
  assert (Hend : forall seen buffer input,
    URL.authority_end host_parser u seen buffer input = Some u' -> with_host u u').
  { intros s b i. unfold URL.authority_end. destruct (_ && _); [done|].
    apply host_state_spec. }
  revert seen buffer. induction input as [|c input IH]; intros seen buffer; simpl.
  - apply Hend.
  - destruct (c =? 64)%N; [apply IH|].
    destruct (URL.ends_authority u c); [apply Hend | apply IH].
Qed.

Lemma ignore_slashes_spec u input u' :
  URL.special_authority_ignore_slashes_state host_parser u input = Some u' ->
  with_host u u'.
Proof.
  induction input as [|c input IH];
    cbn [URL.special_authority_ignore_slashes_state].
  - apply authority_state_spec.
  - destruct (_ || _)%N; [apply IH | apply authority_state_spec].
Qed.

Lemma special_slashes_spec u input u' :
  URL.special_authority_slashes_state host_parser u input = Some u' ->
  with_host u u'.
Proof.
  unfold URL.special_authority_slashes_state.
  destruct input as [|c input]; [apply ignore_slashes_spec|].
  destruct (decide (c = 47%N)) as [->|Hc].
  - destruct input as [|c' input]; [apply ignore_slashes_spec|].
    destruct (decide (c' = 47%N)) as [->|Hc']; [apply ignore_slashes_spec|].
    intros H. apply (ignore_slashes_spec u (47%N :: c' :: input)).
    rewrite <- H. clear H.
    destruct c' as [|p]; [done|].
    repeat (destruct p as [p|p|]; try done).
  - intros H. apply (ignore_slashes_spec u (c :: input)).
    rewrite <- H. clear H.
    destruct c as [|p]; [done|].
    repeat (destruct p as [p|p|]; try done).
Qed.

Lemma file_host_state_spec u buffer input u' :
  URL.host_of u <> None ->
  URL.file_host_state host_parser u buffer input = Some u' ->
  URL.scheme u' = URL.scheme u /\ URL.host_of u' <> None
  /\ URL.port u' = URL.port u.
Proof.
  intros Hu.
  assert (Hend : forall buffer input,
    URL.file_host_end host_parser u buffer input = Some u' ->
    URL.scheme u' = URL.scheme u /\ URL.host_of u' <> None
    /\ URL.port u' = URL.port u).
  { intros b i. unfold URL.file_host_end, URL.path_state, URL.path_start_state.
    destruct (URL.is_windows_drive_letter b); [by intros [= <-]|].
    destruct (bool_decide _); [by intros [= <-]|].
    destruct (host_parser _ _); [by intros [= <-] | done]. }
  revert buffer. induction input as [|c input IH]; intros buffer; simpl.
  - apply Hend.
  - destruct (_ || _)%N; [apply Hend | apply IH].
Qed.

Lemma file_state_spec u input u' :
  URL.file_state host_parser u input = Some u' ->
  URL.host_of u' <> None /\ URL.port u' = URL.port u.
Proof.
  unfold URL.file_state, URL.file_slash_state, URL.path_state. cbv zeta.
  set (v := URL.mkURL (lit "file") (Some URL.EmptyHost) (URL.port u)).
  assert (Hv : URL.host_of v <> None) by done.
  destruct input as [|c input]; [by intros [= <-]|].
  destruct (_ || _)%N; [|by intros [= <-]].
  destruct input as [|c' input]; [by intros [= <-]|].
  destruct (_ || _)%N; [|by intros [= <-]].
  intros (_ & ? & ?)%file_host_state_spec; done.
Qed.

Lemma scheme_state_ok buffer input u :
  URL.scheme_state host_parser buffer input = Some u -> url_ok u.
Proof.
  revert buffer. induction input as [|c input IH]; intros buffer; [done|].
  cbn [URL.scheme_state].
  destruct (_ || _); [apply IH|].
  destruct (c =? 58)%N; [|done]. cbv zeta.
  set (u0 := URL.mkURL buffer None None).
  destruct (bool_decide (buffer = lit "file")).
  - intros [Hh Hp]%file_state_spec. split; [done|].
    intros p. rewrite Hp. done.
  - destruct (URL.is_special u0) eqn:Hsp.
    + intros (_ & Hh & Hp)%special_slashes_spec. split; [done|].
      intros p Hpp. by destruct (Hp p Hpp).
    + assert (Hauth : forall rest, URL.authority_state host_parser u0 false [] rest = Some u
                                   -> url_ok u).
      { intros rest (_ & Hh & Hp)%authority_state_spec. split; [done|].
        intros p Hpp. by destruct (Hp p Hpp). }
      assert (Hu0 : Some u0 = Some u -> url_ok u).
      { intros [= <-]. split; [by rewrite Hsp | done]. }
      destruct input as [|c1 rest]; [apply Hu0|].
      destruct (decide (c1 = 47%N)) as [->|Hc1].
      * unfold URL.path_or_authority_state, URL.path_state.
        destruct rest as [|c2 rest]; [apply Hu0|].
        destruct (decide (c2 = 47%N)) as [->|Hc2]; [apply Hauth|].
        intros H. apply Hu0. rewrite <- H. clear H.
        destruct c2 as [|p]; [done|].
        repeat (destruct p as [p|p|]; try done).
      * intros H. apply Hu0. rewrite <- H. clear H.
        unfold URL.opaque_path_state.
        destruct c1 as [|p]; [done|].
        repeat (destruct p as [p|p|]; try done).
Qed.

Lemma basic_URL_parser_ok input u :
  URL.basic_URL_parser host_parser input = Some u -> url_ok u.
Proof.
  unfold URL.basic_URL_parser, URL.scheme_start_state. cbv zeta.
  destruct (filter _ _) as [|c rest]; [done|].
  destruct (URL.isASCIIAlpha c); [apply scheme_state_ok | done].
Qed.

End URLInvariant.

(** ** The scheme of a parsed URL *)

Section URLScheme.

Variable host_parser : list N -> bool -> option URL.host.

Lemma file_state_scheme u input u' :
  URL.file_state host_parser u input = Some u' -> URL.scheme u' = lit "file".
Proof.
  unfold URL.file_state, URL.file_slash_state, URL.path_state. cbv zeta.
  set (v := URL.mkURL (lit "file") (Some URL.EmptyHost) (URL.port u)).
  destruct input as [|c input]; [by intros [= <-]|].
  destruct (_ || _)%N; [|by intros [= <-]].
  destruct input as [|c' input]; [by intros [= <-]|].
  destruct (_ || _)%N; [|by intros [= <-]].
  intros H. by apply file_host_state_spec in H as (-> & _).
Qed.

(** The scheme state reads scheme code points up to a colon, and the URL
    it returns has them, in lower case, as its scheme. *)
Lemma scheme_state_scheme buffer input u :
  URL.scheme_state host_parser buffer input = Some u ->
  exists body rest,
    input = body ++ 58%N :: rest
    /\ Forall (fun c => scheme_char c = true) body
    /\ URL.scheme u = buffer ++ (URL.lowercase <$> body).
Proof.
  revert buffer. induction input as [|c input IH]; intros buffer; [done|].
  cbn [URL.scheme_state]. fold (scheme_char c).
  destruct (scheme_char c) eqn:Hc.
  - intros (body & rest & -> & Hb & Hs)%IH.
    exists (c :: body), rest. split; [done|]. split; [by constructor|].
    rewrite Hs. cbn [fmap list_fmap]. by rewrite <- app_assoc.
  - destruct (c =? 58)%N eqn:Hcolon; [|done].
    apply N.eqb_eq in Hcolon as ->. cbv zeta.
    intros H. exists [], input. split; [done|]. split; [done|].
    cbn [fmap list_fmap]. rewrite app_nil_r. revert H.
    set (u0 := URL.mkURL buffer None None).
    destruct (bool_decide (buffer = lit "file")) eqn:Hfile.
    + apply bool_decide_eq_true in Hfile as ->. apply file_state_scheme.
    + destruct (URL.is_special u0).
      * by intros (Hs & _)%special_slashes_spec.
      * assert (Hauth : forall rest,
                  URL.authority_state host_parser u0 false [] rest = Some u ->
                  URL.scheme u = buffer).
        { by intros rest (Hs & _)%authority_state_spec. }
        assert (Hu0 : Some u0 = Some u -> URL.scheme u = buffer).
        { by intros [= <-]. }
        destruct input as [|c1 rest]; [apply Hu0|].
        destruct (decide (c1 = 47%N)) as [->|Hc1].
        -- unfold URL.path_or_authority_state, URL.path_state.
           destruct rest as [|c2 rest]; [apply Hu0|].
           destruct (decide (c2 = 47%N)) as [->|Hc2]; [apply Hauth|].
           intros H. apply Hu0. rewrite <- H. clear H.
           destruct c2 as [|p]; [done|].
           repeat (destruct p as [p|p|]; try done).
        -- intros H. apply Hu0. rewrite <- H. clear H.
           unfold URL.opaque_path_state.
           destruct c1 as [|p]; [done|].
           repeat (destruct p as [p|p|]; try done).
Qed.

Lemma new_URL_scheme value u :
  URL.new host_parser value = Normal u ->
  exists a body rest,
    url_input value = a :: body ++ 58%N :: rest
    /\ URL.isASCIIAlpha a = true
    /\ Forall (fun c => scheme_char c = true) body
    /\ URL.scheme u = URL.lowercase <$> a :: body.
Proof.
  unfold URL.new, URL.basic_URL_parser, url_input. cbv zeta.
  destruct (filter _ _) as [|a input]; [done|].
  cbn [URL.scheme_start_state].
  destruct (URL.isASCIIAlpha a) eqn:Ha; [|done].
  destruct (URL.scheme_state _ _ _) as [u'|] eqn:Hu; [|done].
  intros [= ->].
  apply scheme_state_scheme in Hu as (body & rest & -> & Hb & Hs).
  by exists a, body, rest.
Qed.

Lemma new_URL_ok value u :
  URL.new host_parser value = Normal u -> url_ok u.
Proof.
  unfold URL.new.
  destruct (URL.basic_URL_parser _ _) as [u'|] eqn:Hu; [|done].
  intros [= ->]. by apply (basic_URL_parser_ok host_parser _ _ Hu).
Qed.

End URLScheme.

(** The clean-up of the parser comes before the scheme: a value with
    spaces around it and a tab and a newline inside its scheme is
    accepted, and so is a Windows path, whose drive letter is read as a
    scheme. *)
Example url_kind_cleaned :
  validateEnvValue no_host None
    (Some ([32; 9]%N ++ lit "ma" ++ [10]%N ++ lit "ilto:x")) (Some (lit "url"))
  = Normal true
  /\ validateEnvValue no_host None
       (Some ([32; 9]%N ++ lit "C:" ++ [92]%N ++ lit "path" ++ [10]%N))
       (Some (lit "url"))
     = Normal true.
Proof. split; vm_compute; reflexivity. Qed.

(** A special scheme still needs a host: whatever the host parser, a value
    of scheme http with nothing, or only slashes, after the colon is
    rejected. *)
Example url_kind_special_needs_host
    (host_parser : list N -> bool -> option URL.host) :
  validateEnvValue host_parser None (Some (lit "http:")) (Some (lit "url"))
  = Normal false
  /\ validateEnvValue host_parser None (Some (lit "http://")) (Some (lit "url"))
     = Normal false
  /\ validateEnvValue host_parser None (Some (lit "wss:///")) (Some (lit "url"))
     = Normal false.
Proof. repeat split; vm_compute; reflexivity. Qed.

(** C5, amended: for the url kind [validateEnvValue] never throws; it
    returns true exactly when the value is a non-empty string that
    [new URL] accepts, and false for every other value.  A value that
    [new URL] accepts has, once the parser has stripped the C0 controls
    and spaces around it and removed its tabs and newlines, a scheme and a
    colon at its start, and parses to a URL with that scheme, in lower
    case, which has a host whenever the scheme is special.  For the other
    schemes no authority is required: a value that after the clean-up is
    such a scheme, a colon and a rest not starting with a slash is
    accepted. *)
Theorem url_kind
    (host_parser : list N -> bool -> option URL.host)
    (name value : option (list N)) :
  exists b,
    validateEnvValue host_parser name value (Some (lit "url")) = Normal b
    /\ (b = true <->
        exists s u, value = Some s /\ s <> []
                    /\ URL.new host_parser s = Normal u)
    /\ (forall s u,
          value = Some s -> URL.new host_parser s = Normal u ->
          (exists a body rest,
             url_input s = a :: body ++ 58%N :: rest
             /\ URL.isASCIIAlpha a = true
             /\ Forall (fun c => scheme_char c = true) body
             /\ URL.scheme u = URL.lowercase <$> a :: body)
          /\ (URL.is_special u = true -> URL.host_of u <> None))
    /\ (forall s a body rest,
          value = Some s ->
          url_input s = a :: body ++ 58%N :: rest ->
          URL.isASCIIAlpha a = true ->
          Forall (fun c => scheme_char c = true) body ->
          URL.is_special_scheme (URL.lowercase <$> a :: body) = false ->
          (forall rest', rest <> 47%N :: rest') ->
          b = true).
Proof.
  rewrite validateEnvValue_url. eexists. split; [reflexivity|].
  rewrite andb_true_iff, bool_decide_eq_true, truthy_true.
  assert (Hnew : forall s, is_Some (URL.basic_URL_parser host_parser (URL.toUSVString s))
                   <-> exists u, URL.new host_parser s = Normal u).
  { intros s. unfold URL.new.
    destruct (URL.basic_URL_parser _ _) as [u|]; split.
    - intros _. by exists u.
    - intros _. by exists u.
    - by intros [? ?].
    - by intros [? ?]. }
  split; [|split].
  - split.
    + intros [(s & -> & Hs) Hu]. apply Hnew in Hu as [u Hu]. by exists s, u.
    + intros (s & u & -> & Hs & Hu). split; [by exists s|].
      apply Hnew. by exists u.
  - intros s u _ Hu. split.
    + by apply (new_URL_scheme host_parser).
    + by destruct (new_URL_ok host_parser s u Hu).
  - intros s a body rest -> Hin Ha Hbody Hspecial Hrest.
    destruct (opaque_url_accepted host_parser name s a body rest
                Hin Ha Hbody Hspecial Hrest) as [Hv _].
    rewrite validateEnvValue_url in Hv. by injection Hv as Hv.
Qed.

(** X16: a value that [validateEnvValue] accepts as a URL parses to a URL
    that has a host whenever its scheme is special (ftp, file, http, https,
    ws, wss), and whose port, if any, lies between 0 and 65535.  So the
    values accepted with no authority all have other schemes. *)
Theorem url_special_has_host
    (host_parser : list N -> bool -> option URL.host)
    (name value : option (list N)) :
  validateEnvValue host_parser name value (Some (lit "url")) = Normal true ->
  exists s u, value = Some s /\ URL.new host_parser s = Normal u
              /\ (URL.is_special u = true -> URL.host_of u <> None)
              /\ (forall p, URL.port u = Some p -> 0 <= p <= 65535).
Proof.
  rewrite validateEnvValue_url.
  intros [= [Ht Hs]%andb_true_iff].
  apply truthy_true in Ht as (s & -> & _).
  apply bool_decide_eq_true in Hs as [u Hu]. cbn [JS.ToString] in Hu.
  exists s, u. split; [done|]. split; [unfold URL.new; by rewrite Hu|].
  exact (basic_URL_parser_ok host_parser (URL.toUSVString s) u Hu).
Qed.

Lemma url_special_has_host_witness :
  exists s u, Some (lit "file:///srv/data.json") = Some s
              /\ URL.new no_host s = Normal u
              /\ (URL.is_special u = true -> URL.host_of u <> None)
              /\ (forall p, URL.port u = Some p -> 0 <= p <= 65535).
Proof.
  apply (url_special_has_host no_host None (Some (lit "file:///srv/data.json"))).
  vm_compute. reflexivity.
Defined.

(** ** The logger *)

Lemma isDev_true env :
  Logger.isDev env = true <-> env !! lit "NODE_ENV" = Some (lit "development").
Proof. unfold Logger.isDev. by rewrite bool_decide_eq_true. Qed.

(** X17: unless NODE_ENV is exactly "development" when the logger is
    loaded (unset, "production" or anything else), the calls of info, warn,
    debug and success write nothing, and each call of error writes one
    [console.error] with the tag and its first argument only ([undefined]
    when it has none): the other arguments are never written. *)
Theorem logger_silent_outside_development {A : Type}
    (env : gmap (list N) (list N))
    (calls : list (level * list (Console.value A))) :
  env !! lit "NODE_ENV" <> Some (lit "development") ->
  logger_run env calls
  = redacted_error <$> filter (fun c => c.1 = Error) calls.
Proof.
  intros Hdev.
  assert (Hd : Logger.isDev env = false).
  { apply not_true_iff_false. by rewrite isDev_true. }
  unfold logger_run. induction calls as [|[l args] calls IH]; [done|].
  rewrite fmap_cons, filter_cons. cbn [concat fst]. rewrite IH.
  unfold logger_call, Logger.info, Logger.error, Logger.warn, Logger.debug,
    Logger.success. cbn [fst snd]. rewrite Hd.
  destruct l; cbn [app];
    first [ rewrite decide_True by done | rewrite decide_False by done ];
    reflexivity.
Qed.

Lemma logger_silent_outside_development_witness :
  logger_run env_valid sample_calls
  = redacted_error <$> filter (fun c => c.1 = Error) sample_calls.
Proof.
  apply (logger_silent_outside_development env_valid sample_calls).
  intros H. vm_compute in H. discriminate.
Defined.

(** X18: when NODE_ENV is "development" at load time every logger call
    writes exactly one console call, in order: its tag followed by all its
    arguments, on [console.log] for info and success, [console.error],
    [console.warn] and [console.debug] for the others. *)
Theorem logger_development {A : Type}
    (env : gmap (list N) (list N))
    (calls : list (level * list (Console.value A))) :
  env !! lit "NODE_ENV" = Some (lit "development") ->
  logger_run env calls = tagged_call <$> calls.
Proof.
  intros Hd%isDev_true.
  unfold logger_run. induction calls as [|[l args] calls IH]; [done|].
  rewrite !fmap_cons. cbn [concat]. rewrite IH.
  unfold logger_call, tagged_call, Logger.info, Logger.error, Logger.warn,
    Logger.debug, Logger.success. cbn [fst snd]. rewrite Hd.
  by destruct l.
Qed.

Lemma logger_development_witness :
  logger_run env_development sample_calls = tagged_call <$> sample_calls.
Proof.
  apply (logger_development env_development sample_calls).
  vm_compute. reflexivity.
Defined.

(** ** The data store *)

Section Store.

Context {Value FS : Type}.
Variable null : Value.
Variable dataDir : list N.
Variable path_join : list N -> list N -> list N.
Variable readFileSync : FS -> list N -> DB.Error + list N.
Variable writeFileSync : FS -> list N -> option (list N) -> FS * option DB.Error.
Variable JSON_parse : list N -> DB.Error + Value.
Variable JSON_stringify : Value -> DB.Error + option (list N).

Abbreviation readData :=
  (DB.readData null dataDir path_join readFileSync JSON_parse).
Abbreviation writeData :=
  (DB.writeData dataDir path_join writeFileSync JSON_stringify).

(** X19: the store reports every failure of the file system and of JSON,
    for a file name that is a string and errors that carry a message.
    When [fs.readFileSync] throws, or returns a text on which [JSON.parse]
    throws, [readData] returns [null] and writes one [console.error] line
    that names the file and carries the message of that error; when
    neither throws it returns the parsed value and writes nothing.  When
    [JSON.stringify] throws, [writeData] returns false, writes one such
    line and leaves the file system as it was; when [fs.writeFileSync]
    throws it returns false and writes one such line; when neither throws
    it returns true and writes nothing.  So [writeData] returns true
    exactly when it writes no line. *)
Theorem store_failures_logged (fs : FS) (filename : list N) (data : Value) :
  (forall e,
     readFileSync fs (path_join dataDir filename) = inl e ->
     readData fs filename = ([error_line (lit "Error reading ") filename e], null))
  /\ (forall text e,
        readFileSync fs (path_join dataDir filename) = inr text ->
        JSON_parse text = inl e ->
        readData fs filename = ([error_line (lit "Error reading ") filename e], null))
  /\ (forall text v,
        readFileSync fs (path_join dataDir filename) = inr text ->
        JSON_parse text = inr v ->
        readData fs filename = ([], v))
  /\ (forall e,
        JSON_stringify data = inl e ->
        writeData fs filename data
        = (fs, [error_line (lit "Error writing ") filename e], false))
  /\ (forall text fs' e,
        JSON_stringify data = inr text ->
        writeFileSync fs (path_join dataDir filename) text = (fs', Some e) ->
        writeData fs filename data
        = (fs', [error_line (lit "Error writing ") filename e], false))
  /\ (forall text fs',
        JSON_stringify data = inr text ->
        writeFileSync fs (path_join dataDir filename) text = (fs', None) ->
        writeData fs filename data = (fs', [], true))
  /\ ((writeData fs filename data).2 = true
      <-> (writeData fs filename data).1.2 = []).
Proof.
  unfold DB.writeData, DB.readData, error_line. cbv zeta.
  repeat split.
  - by intros e ->.
  - by intros text e -> ->.
  - by intros text v -> ->.
  - by intros e ->.
  - by intros text fs' e -> ->.
  - by intros text fs' -> ->.
  - destruct (JSON_stringify data) as [e|text]; [done|].
    by destruct (writeFileSync fs _ text) as [fs' [e|]].
  - destruct (JSON_stringify data) as [e|text]; [done|].
    by destruct (writeFileSync fs _ text) as [fs' [e|]].
Qed.

(** X20: what [writeData] has stored, [readData] returns.  After a
    [writeData] that returned true, on a platform where writing
    [undefined] throws, a file just written reads back as written and the
    JSON text of the value parses back to it, [readData] of the same name
    returns the value and writes no console line. *)
Theorem store_round_trip (fs fs' : FS) (filename : list N) (data : Value)
    (log : list (Console.call Value)) :
  writeData fs filename data = (fs', log, true) ->
  (forall path, (writeFileSync fs path None).2 <> None) ->
  (forall text,
     writeFileSync fs (path_join dataDir filename) (Some text) = (fs', None) ->
     readFileSync fs' (path_join dataDir filename) = inr text) ->
  (forall text, JSON_stringify data = inr (Some text) -> JSON_parse text = inr data) ->
  log = [] /\ readData fs' filename = ([], data).
Proof.
  unfold DB.writeData, DB.readData. cbv zeta.
  intros Hw Hundef Hrw Hjson.
  destruct (JSON_stringify data) as [e|[text|]] eqn:Hs; [done| |].
  - destruct (writeFileSync fs _ (Some text)) as [fs1 [e|]] eqn:Hwr; [done|].
    injection Hw as -> <-. split; [done|].
    by rewrite (Hrw text Hwr), (Hjson text).
  - specialize (Hundef (path_join dataDir filename)).
    by destruct (writeFileSync fs _ None) as [fs1 [e|]].
Qed.

(** X21: writing one file does not change what [readData] returns for
    another: when the write leaves the other file as it reads, [readData]
    of the other name returns after the [writeData], failed or not, what it
    returned before. *)
Theorem store_frame (fs fs' : FS) (filename other : list N) (data : Value)
    (log : list (Console.call Value)) (ok : bool) :
  writeData fs filename data = (fs', log, ok) ->
  (forall text result,
     writeFileSync fs (path_join dataDir filename) text = (fs', result) ->
     readFileSync fs' (path_join dataDir other)
     = readFileSync fs (path_join dataDir other)) ->
  readData fs' other = readData fs other.
Proof.
  unfold DB.writeData, DB.readData. cbv zeta. intros Hw Hframe.
  destruct (JSON_stringify data) as [e|text]; [by injection Hw as <- _ _|].
  destruct (writeFileSync fs _ text) as [fs1 r] eqn:Hwr.
  assert (fs1 = fs') as -> by (by destruct r; injection Hw).
  by rewrite (Hframe text r Hwr).
Qed.

End Store.

Lemma memory_write fs filename data :
  MemoryStore.writeData fs filename data
  = (<[MemoryStore.path_join MemoryStore.dataDir filename := data]> fs, [], true).
Proof. reflexivity. Qed.

Lemma memory_read_written fs path text text' :
  MemoryStore.writeFileSync fs path (Some text') = (<[path := text]> fs, None) ->
  MemoryStore.readFileSync (<[path := text]> fs) path = inr text'.
Proof.
  unfold MemoryStore.writeFileSync, MemoryStore.readFileSync. intros [= H].
  apply (f_equal (fun m => m !! path)) in H.
  rewrite !lookup_insert_eq in H. rewrite lookup_insert_eq. congruence.
Qed.

Lemma memory_read_other fs path other text :
  other <> path ->
  MemoryStore.readFileSync (<[path := text]> fs) other
  = MemoryStore.readFileSync fs other.
Proof.
  intros H. unfold MemoryStore.readFileSync. by rewrite lookup_insert_ne.
Qed.

Lemma store_failures_logged_witness :
  MemoryStore.readData ∅ (lit "users.json")
  = ([error_line (lit "Error reading ") (lit "users.json")
        (DB.mkError (lit "ENOENT: no such file or directory"))],
     []).
Proof.
  apply (store_failures_logged (Value := list N) [] MemoryStore.dataDir
           MemoryStore.path_join MemoryStore.readFileSync
           MemoryStore.writeFileSync inr (fun d => inr (Some d))
           ∅ (lit "users.json") []).
  reflexivity.
Defined.

Lemma store_round_trip_witness :
  @nil (Console.call (list N)) = [] /\
  MemoryStore.readData
    (<[MemoryStore.path_join MemoryStore.dataDir (lit "children.json") := lit "[]"]> ∅)
    (lit "children.json")
  = ([], lit "[]").
Proof.
  apply (store_round_trip [] MemoryStore.dataDir MemoryStore.path_join
           MemoryStore.readFileSync MemoryStore.writeFileSync inr
           (fun d => inr (Some d)) ∅
           (<[MemoryStore.path_join MemoryStore.dataDir (lit "children.json")
              := lit "[]"]> ∅)
           (lit "children.json") (lit "[]") []).
  - exact (memory_write ∅ (lit "children.json") (lit "[]")).
  - intros path. discriminate.
  - intros text. apply memory_read_written.
  - intros text H. by injection H as <-.
Defined.

Lemma store_frame_witness :
  MemoryStore.readData
    (<[MemoryStore.path_join MemoryStore.dataDir (lit "children.json") := lit "[]"]> ∅)
    (lit "groups.json")
  = MemoryStore.readData ∅ (lit "groups.json").
Proof.
  apply (store_frame [] MemoryStore.dataDir MemoryStore.path_join
           MemoryStore.readFileSync MemoryStore.writeFileSync inr
           (fun d => inr (Some d)) ∅
           (<[MemoryStore.path_join MemoryStore.dataDir (lit "children.json")
              := lit "[]"]> ∅)
           (lit "children.json") (lit "groups.json") (lit "[]") [] true).
  - exact (memory_write ∅ (lit "children.json") (lit "[]")).
  - intros text result _. apply memory_read_other.
    unfold MemoryStore.path_join. intros H. apply app_inv_head in H.
    vm_compute in H. discriminate.
Defined.

(** ** What validateEnvValue never does *)

(** X22: [validateEnvValue] never throws, whatever the value and the kind,
    known or not: the error of [new URL] on a malformed value is caught and
    becomes the result false.  Its result does not depend on the name it is
    given. *)
Theorem validateEnvValue_never_throws
    (host_parser : list N -> bool -> option URL.host)
    (name name' value type : option (list N)) :
  (exists b, validateEnvValue host_parser name value type = Normal b)
  /\ validateEnvValue host_parser name value type
     = validateEnvValue host_parser name' value type.
Proof.
  split; [|reflexivity].
  unfold validateEnvValue. cbv zeta.
  destruct (negb (JS.truthy value)); [by eexists|].
  repeat (destruct (bool_decide _); [by eexists|]).
  destruct (bool_decide _).
  - destruct (URL.new host_parser (JS.ToString value)); by eexists.
  - repeat (destruct (bool_decide _); [by eexists|]). by eexists.
Qed.
